(** * The chat and document routes of the agent web app (src/api/routes.py)

    A shallow embedding of the route handlers and of the event handler that
    turns the agent's streamed events into Server-Sent Events.

    Python values are modelled as follows.
    - [str] is a list of Unicode code points ([pystr]).
    - A JSON-like value (what [json.loads] returns, what [json.dumps]
      accepts) is the inductive [json]; a [dict] keeps its insertion order,
      so it is an association list.
    - Exceptions are values of [exn]; a computation that may raise returns
      [exn + A].
    - Calls to the remote agent service, to the process environment and to
      the file system are recorded in a trace of [call]s; what those calls
      answer is given by a [World] of oracles that see the calls made so far. *)

From Stdlib Require Import List String Ascii ZArith NArith Bool Lia.
From Stdlib Require Import DecimalString.
Import ListNotations.

Open Scope N_scope.
Open Scope list_scope.

(** ** Python strings *)

Definition pystr := list N.

(** The code points of an ASCII literal. *)
Definition u (s : string) : pystr :=
  map N_of_ascii (list_ascii_of_string s).

Definition pystr_eqb (a b : pystr) : bool :=
  if list_eq_dec N.eq_dec a b then true else false.

(** Truthiness of a [str]: the empty string is falsy. *)
Definition str_truthy (s : pystr) : bool :=
  match s with [] => false | _ => true end.

(** ** JSON-like Python values *)

#[local] Set Warnings "-register-all".

Inductive json :=
| JNull
| JBool (b : bool)
| JInt (n : Z)
| JStr (s : pystr)
| JList (items : list json)
| JDict (entries : list (pystr * json)).

(** ** Exceptions

    Only subclasses of [Exception] are modelled: those are what the
    [except Exception] clauses of the source catch.  [exn_str] is [str(e)]. *)

Inductive exn_class :=
| KeyError | IndexError | TypeError | AttributeError
| JSONDecodeError | RecursionError | ValueError | OSError | ServiceError.

Record exn := Exn { exn_cls : exn_class; exn_str : pystr }.

Definition except (A : Type) : Type := (exn + A)%type.

(** ** Dictionaries *)

Fixpoint dict_get {A} (d : list (pystr * A)) (k : pystr) : option A :=
  match d with
  | [] => None
  | (k', v) :: d' => if pystr_eqb k k' then Some v else dict_get d' k
  end.

(** [k in d] *)
Definition dict_mem {A} (d : list (pystr * A)) (k : pystr) : bool :=
  match dict_get d k with Some _ => true | None => false end.

(** [d[k] = v]: an existing key keeps its position, a new key goes last. *)
Fixpoint dict_set {A} (d : list (pystr * A)) (k : pystr) (v : A)
  : list (pystr * A) :=
  match d with
  | [] => [(k, v)]
  | (k', v') :: d' =>
      if pystr_eqb k k' then (k', v) :: d' else (k', v') :: dict_set d' k v
  end.

(** The name Python prints for the type of a value. *)
Definition type_name (v : json) : pystr :=
  match v with
  | JNull => u "NoneType"
  | JBool _ => u "bool"
  | JInt _ => u "int"
  | JStr _ => u "str"
  | JList _ => u "list"
  | JDict _ => u "dict"
  end.

Definition quoted (s : pystr) : pystr := u "'" ++ s ++ u "'".

(** [v[k]] for a string key [k].  A [dict] without the key raises
    [KeyError]; any other value raises [TypeError].  The messages are the
    ones CPython 3.12 prints (for the plain keys the source uses); nothing
    below depends on their wording. *)
Definition py_getitem (v : json) (k : pystr) : except json :=
  match v with
  | JDict d =>
      match dict_get d k with
      | Some x => inr x
      | None => inl (Exn KeyError (quoted k))
      end
  | JList _ => inl (Exn TypeError (u "list indices must be integers or slices, not str"))
  | JStr _ => inl (Exn TypeError (u "string indices must be integers, not 'str'"))
  | _ => inl (Exn TypeError (quoted (type_name v) ++ u " object is not subscriptable"))
  end.

Definition no_attribute (v : json) (attr : string) : exn :=
  Exn AttributeError
      (quoted (type_name v) ++ u " object has no attribute " ++ quoted (u attr)).

(** [v.get(k, default)]: only a [dict] has the method. *)
Definition py_get (v : json) (k : pystr) (default : json) : except json :=
  match v with
  | JDict d =>
      match dict_get d k with
      | Some x => inr x
      | None => inr default
      end
  | _ => inl (no_attribute v "get")
  end.

(** ** [json.dumps] with its defaults

    [ensure_ascii=True], separators [", "] and [": "]. *)

Definition hex_digit (d : N) : N :=
  if d <? 10 then 48 + d else 87 + d.

(** ['{0:04x}'.format(n)] for [n < 0x10000]. *)
Definition hex4 (n : N) : pystr :=
  [hex_digit (N.land (N.shiftr n 12) 15);
   hex_digit (N.land (N.shiftr n 8) 15);
   hex_digit (N.land (N.shiftr n 4) 15);
   hex_digit (N.land n 15)].

Definition backslash : N := 92.
Definition dquote : N := 34.

Definition escape_char (c : N) : pystr :=
  if c =? dquote then [backslash; dquote]
  else if c =? backslash then [backslash; backslash]
  else if c =? 8 then [backslash; 98]
  else if c =? 12 then [backslash; 102]
  else if c =? 10 then [backslash; 110]
  else if c =? 13 then [backslash; 114]
  else if c =? 9 then [backslash; 116]
  else if (32 <=? c) && (c <=? 126) then [c]
  else if c <? 65536 then backslash :: 117 :: hex4 c
  else
    let n := c - 65536 in
    let s1 := N.lor 55296 (N.land (N.shiftr n 10) 1023) in
    let s2 := N.lor 56320 (N.land n 1023) in
    (backslash :: 117 :: hex4 s1) ++ (backslash :: 117 :: hex4 s2).

Definition encode_string (s : pystr) : pystr :=
  dquote :: flat_map escape_char s ++ [dquote].

Definition encode_int (n : Z) : pystr :=
  u (NilZero.string_of_int (Z.to_int n)).

Fixpoint json_dumps (v : json) : pystr :=
  match v with
  | JNull => u "null"
  | JBool true => u "true"
  | JBool false => u "false"
  | JInt n => encode_int n
  | JStr s => encode_string s
  | JList items =>
      u "[" ++
      (fix elems (l : list json) : pystr :=
         match l with
         | [] => []
         | [x] => json_dumps x
         | x :: l' => json_dumps x ++ u ", " ++ elems l'
         end) items
      ++ u "]"
  | JDict entries =>
      u "{" ++
      (fix members (l : list (pystr * json)) : pystr :=
         match l with
         | [] => []
         | [(k, x)] => encode_string k ++ u ": " ++ json_dumps x
         | (k, x) :: l' =>
             encode_string k ++ u ": " ++ json_dumps x ++ u ", " ++ members l'
         end) entries
      ++ u "}"
  end.

(** [serialize_sse_event]: [f"data: {json.dumps(data)}\n\n"]. *)
Definition serialize_sse_event (data : list (pystr * json)) : pystr :=
  u "data: " ++ json_dumps (JDict data) ++ [10; 10].

(** ** Exceptions raised by the handlers themselves

    [HTTPException] is an [Exception] too, so it is a constructor of the
    type the [except Exception] clauses catch.  The framework turns an
    [HTTPException] that leaves a handler into a response with its status
    code, and any other exception into a 500. *)

Inductive raised :=
| Error (e : exn)
| HTTPException (status_code : Z) (detail : pystr).

(** [str(e)]; for [HTTPException] it is [f"{status_code}: {detail}"]. *)
Definition str_of (r : raised) : pystr :=
  match r with
  | Error e => exn_str e
  | HTTPException c d => encode_int c ++ u ": " ++ d
  end.

(** ** The objects of the agent SDK that the handlers read *)

Record Agent := { agent_id_of : pystr }.
Record Thread := { thread_id_of : pystr }.
Record OpenAIFile := { filename : pystr }.

Record MessageDeltaChunk := { delta_text : pystr }.

Record ThreadMessage := {
  message_id : pystr;
  message_status : pystr;
  (** [message.text_messages], each given by its [text.value] *)
  text_messages : list pystr;
  (** [message.file_citation_annotations], each given by its [as_dict()] *)
  file_citation_annotations : list (list (pystr * json))
}.

(** [run.status] is a string enumeration of the SDK: [==] compares its
    value, while the f-string prints the member as Python's [format] does
    (the member's name, [RunStatus.FAILED], from Python 3.11 on; its value
    before that, and for a status the enumeration does not know).  The record
    keeps both. *)
Record ThreadRun := {
  (** the value that [run.status == "failed"] compares *)
  run_status : pystr;
  (** what [f"{run.status}"] prints *)
  run_status_text : pystr;
  run_thread_id : pystr;
  (** what [f"{run.last_error}"] prints *)
  run_last_error : pystr
}.

(** The events of a run.  [OtherEvent] stands for the kinds (run steps and
    unknown events) whose handler methods [MyEventHandler] inherits unchanged;
    the inherited methods return [None]. *)
Inductive event :=
| MessageDelta (delta : MessageDeltaChunk)
| ThreadMessagePosted (message : ThreadMessage)
| ThreadRunUpdate (run : ThreadRun)
| ErrorEvent (data : pystr)
| DoneEvent
| OtherEvent.

(** What iterating the stream gives: its events in order, and then either
    the end of the iteration or an exception. *)
Record Stream := {
  stream_events : list event;
  stream_failure : option exn
}.

(** ** The outside world *)

Inductive call :=
| GetThread (thread_id : pystr)
| CreateThread
| CreateMessage (thread_id role : pystr) (content : json)
| CreateStream (thread_id assistant_id : pystr)
| GetFile (file_id : json)
| EnvironGet (name : pystr)
| OpenRead (path : json).

Definition trace := list call.

(** Every oracle sees the calls made before it, so the remote service, the
    environment and the file system may change as the program runs.
    [json_loads] is [json.loads] on a [str]: the value it returns, or the
    exception it raises, a [JSONDecodeError] for a text that is not JSON and
    another one (a [RecursionError] for a text nested too deep, a
    [ValueError] for an integer with too many digits) for a text it gives
    up on. *)
Record World := {
  agents_get_thread : trace -> pystr -> except Thread;
  agents_create_thread : trace -> except Thread;
  agents_create_message : trace -> pystr -> pystr -> json -> except pystr;
  agents_create_stream : trace -> pystr -> pystr -> except Stream;
  agents_get_file : trace -> json -> except OpenAIFile;
  os_environ_get : trace -> pystr -> option pystr;
  open_read : trace -> json -> except pystr;
  json_loads : pystr -> except json
}.

(** ** Computations that call the world and may raise *)

Definition M (A : Type) : Type := trace -> (raised + A) * trace.

Definition ret {A} (a : A) : M A := fun t => (inr a, t).

Definition raise {A} (r : raised) : M A := fun t => (inl r, t).

Definition bind {A B} (m : M A) (k : A -> M B) : M B :=
  fun t =>
    match m t with
    | (inl r, t') => (inl r, t')
    | (inr a, t') => k a t'
    end.

(** [try: m  except Exception as e: h e] *)
Definition try_except {A} (m : M A) (h : raised -> M A) : M A :=
  fun t =>
    match m t with
    | (inl r, t') => h r t'
    | (inr a, t') => (inr a, t')
    end.

(** [try: m  except C: h], for the exceptions [C] that [catches]
    recognises; any other exception goes on. *)
Definition try_except_only {A} (catches : raised -> bool) (m : M A) (h : M A)
  : M A :=
  fun t =>
    match m t with
    | (inl r, t') => if catches r then h t' else (inl r, t')
    | (inr a, t') => (inr a, t')
    end.

(** The test of [except json.JSONDecodeError]. *)
Definition is_JSONDecodeError (r : raised) : bool :=
  match r with
  | Error e =>
      match exn_cls e with
      | JSONDecodeError => true
      | _ => false
      end
  | HTTPException _ _ => false
  end.

(** A value computed without the world, or the exception it raises. *)
Definition lift {A} (x : except A) : M A :=
  fun t => (match x with inl e => inl (Error e) | inr a => inr a end, t).

(** One call to the world: it is answered from the calls made so far and
    then recorded. *)
Definition perform {A} (c : call) (answer : trace -> except A) : M A :=
  fun t => (match answer t with inl e => inl (Error e) | inr a => inr a end,
            t ++ [c]).

Declare Scope py_scope.
Delimit Scope py_scope with py.
Notation "x <- m ;; k" := (bind m (fun x => k))
  (at level 61, m at next level, right associativity) : py_scope.
Notation "m ;;; k" := (bind m (fun _ => k))
  (at level 61, right associativity) : py_scope.
Open Scope py_scope.

Section Handlers.
Variable w : World.

Definition get_thread (thread_id : pystr) : M Thread :=
  perform (GetThread thread_id) (fun t => agents_get_thread w t thread_id).

Definition create_thread : M Thread :=
  perform CreateThread (agents_create_thread w).

Definition create_message (thread_id role : pystr) (content : json) : M pystr :=
  perform (CreateMessage thread_id role content)
          (fun t => agents_create_message w t thread_id role content).

Definition create_stream (thread_id assistant_id : pystr) : M Stream :=
  perform (CreateStream thread_id assistant_id)
          (fun t => agents_create_stream w t thread_id assistant_id).

Definition get_file (file_id : json) : M OpenAIFile :=
  perform (GetFile file_id) (fun t => agents_get_file w t file_id).

(** [read_file]: [open(path, 'r', encoding='utf-8')] and [file.read()]. *)
Definition read_file (path : json) : M pystr :=
  perform (OpenRead path) (fun t => open_read w t path).

(** [os.environ.get(name, default)] *)
Definition environ_get (name default : pystr) : M pystr :=
  fun t => (inr match os_environ_get w t name with
                | Some v => v
                | None => default
                end,
            t ++ [EnvironGet name]).

(** *** [MyEventHandler] *)

Definition on_message_delta (delta : MessageDeltaChunk) : M (option pystr) :=
  let stream_data :=
    [(u "content", JStr (delta_text delta)); (u "type", JStr (u "message"))] in
  ret (Some (serialize_sse_event stream_data)).

(** The loop of [on_thread_message] over the annotations. *)
Fixpoint enrich (todo : list (list (pystr * json)))
                (annotations : list json) : M (list json) :=
  match todo with
  | [] => ret annotations
  | annotation :: rest =>
      file_citation <- lift (py_getitem (JDict annotation) (u "file_citation")) ;;
      file_id <- lift (py_getitem file_citation (u "file_id")) ;;
      openai_file <- get_file file_id ;;
      let annotation :=
        dict_set annotation (u "file_name") (JStr (filename openai_file)) in
      enrich rest (annotations ++ [JDict annotation])
  end.

(** [l[0]] *)
Definition first {A} (l : list A) : except A :=
  match l with
  | x :: _ => inr x
  | [] => inl (Exn IndexError (u "list index out of range"))
  end.

Definition on_thread_message (message : ThreadMessage) : M (option pystr) :=
  try_except
    (if negb (pystr_eqb (message_status message) (u "completed")) then ret None
     else
       annotations <- enrich (file_citation_annotations message) [] ;;
       content <- lift (first (text_messages message)) ;;
       let stream_data :=
         [(u "content", JStr content);
          (u "annotations", JList annotations);
          (u "type", JStr (u "completed_message"))] in
       ret (Some (serialize_sse_event stream_data)))
    (fun e => ret None).

Definition on_thread_run (run : ThreadRun) : M (option pystr) :=
  let run_info :=
    u "ThreadRun status: " ++ run_status_text run
      ++ u ", thread ID: " ++ run_thread_id run in
  let run_info :=
    if pystr_eqb (run_status run) (u "failed")
    then run_info ++ u ", error: " ++ run_last_error run
    else run_info in
  ret (Some (serialize_sse_event
               [(u "content", JStr run_info); (u "type", JStr (u "thread_run"))])).

Definition on_error (data : pystr) : M (option pystr) :=
  ret (Some (serialize_sse_event [(u "type", JStr (u "stream_end"))])).

Definition on_done : M (option pystr) :=
  ret (Some (serialize_sse_event [(u "type", JStr (u "stream_end"))])).

(** Modelled from the spec: the base class of [MyEventHandler], which hands
    each event of the stream to the handler method of its kind, belongs to
    the agent SDK and is not part of the repository.  The table of spec 4.2
    gives the dispatch, one handler method per kind of remote event; the
    value the method returns is the third component of the triple that
    [get_result] unpacks. *)
Definition process_event (ev : event) : M (option pystr) :=
  match ev with
  | MessageDelta delta => on_message_delta delta
  | ThreadMessagePosted message => on_thread_message message
  | ThreadRunUpdate run => on_thread_run run
  | ErrorEvent data => on_error data
  | DoneEvent => on_done
  | OtherEvent => ret None
  end.
End Handlers.

(** ** Requests and responses *)

Record Request := {
  cookies : list (pystr * pystr);
  query_params : list (pystr * pystr);
  (** what [await request.json()] returns or raises *)
  request_json : except json
}.

(** An async generator of SSE frames, not yet run: run from a trace, it
    gives the frames it yields, in order, and the trace it leaves. *)
Definition generator := trace -> list pystr * trace.

Inductive body :=
| Text (data : pystr)
| Json (content : json)
| Streaming (content : generator).

Record Response := {
  status_code : Z;
  response_body : body;
  headers : list (pystr * pystr);
  (** the cookies set on the response, in the order of the calls *)
  set_cookies : list (pystr * pystr)
}.

Definition PlainTextResponse (data : pystr) : Response :=
  {| status_code := 200; response_body := Text data;
     headers := []; set_cookies := [] |}.

Definition JSONResponse (content : json) (status_code : Z) : Response :=
  {| status_code := status_code; response_body := Json content;
     headers := []; set_cookies := [] |}.

Definition StreamingResponse (content : generator)
                             (headers : list (pystr * pystr)) : Response :=
  {| status_code := 200; response_body := Streaming content;
     headers := headers; set_cookies := [] |}.

Definition set_cookie (key value : pystr) (r : Response) : Response :=
  {| status_code := status_code r; response_body := response_body r;
     headers := headers r; set_cookies := set_cookies r ++ [(key, value)] |}.

(** The status the client sees: the response's own, the code of an
    [HTTPException], or 500 for any other exception leaving the handler. *)
Definition http_status (r : raised + Response) : Z :=
  match r with
  | inr resp => status_code resp
  | inl (HTTPException c _) => c
  | inl (Error _) => 500%Z
  end.

(** Truthiness of [d.get(k)]: [None] and [''] are falsy. *)
Definition truthy (v : option pystr) : bool :=
  match v with
  | Some s => str_truthy s
  | None => false
  end.

(** [v == s] for [v] that is [None] or a [str]. *)
Definition equals (v : option pystr) (s : pystr) : bool :=
  match v with
  | Some s' => pystr_eqb s' s
  | None => false
  end.

Definition or_empty (v : option pystr) : pystr :=
  match v with Some s => s | None => [] end.

(** The frames an event contributes to the stream. *)
Definition yielded (event_return_val : option pystr) : list pystr :=
  match event_return_val with
  | Some s => if str_truthy s then [s] else []
  | None => []
  end.

Section Routes.
Variable w : World.

Definition error_frame (e : raised) : pystr :=
  serialize_sse_event [(u "type", JStr (u "error")); (u "message", JStr (str_of e))].

(** The [async for] loop of [get_result]: the frames it yields, and the
    exception that ends it early, if any. *)
Fixpoint consume (events : list event) (t : trace)
  : (option raised * list pystr) * trace :=
  match events with
  | [] => ((None, []), t)
  | ev :: rest =>
      match process_event w ev t with
      | (inl r, t') => ((Some r, []), t')
      | (inr event_return_val, t') =>
          let yielded :=
            match event_return_val with
            | Some s => if str_truthy s then [s] else []
            | None => []
            end in
          let '((r, frames), t'') := consume rest t' in
          ((r, yielded ++ frames), t'')
      end
  end.

Definition get_result (thread_id agent_id : pystr) : generator :=
  fun t =>
    match create_stream w thread_id agent_id t with
    | (inl e, t') => ([error_frame e], t')
    | (inr stream, t') =>
        let '((r, frames), t'') := consume (stream_events stream) t' in
        match r, stream_failure stream with
        | Some e, _ => (frames ++ [error_frame e], t'')
        | None, Some e => (frames ++ [error_frame (Error e)], t'')
        | None, None => (frames, t'')
        end
    end.

Definition chat (request : Request) (agent : Agent) : M Response :=
  let thread_id := dict_get (cookies request) (u "thread_id") in
  let agent_id := dict_get (cookies request) (u "agent_id") in
  thread <-
    try_except
      (if truthy thread_id && equals agent_id (agent_id_of agent)
       then get_thread w (or_empty thread_id)
       else create_thread w)
      (fun e => raise (HTTPException 400 (u "Thread error: " ++ str_of e))) ;;
  let thread_id := thread_id_of thread in
  let agent_id := agent_id_of agent in
  user_message <-
    try_except
      (user_data <- lift (request_json request) ;;
       lift (py_get user_data (u "message") (JStr [])))
      (fun e => raise (HTTPException 400 (u "Invalid JSON: " ++ str_of e))) ;;
  try_except
    (create_message w thread_id (u "user") user_message)
    (fun e => raise (HTTPException 500
                       (u "Message creation error: " ++ str_of e))) ;;;
  let headers :=
    [(u "Cache-Control", u "no-cache");
     (u "Connection", u "keep-alive");
     (u "Content-Type", u "text/event-stream")] in
  let response := StreamingResponse (get_result thread_id agent_id) headers in
  let response := set_cookie (u "thread_id") thread_id response in
  let response := set_cookie (u "agent_id") agent_id response in
  ret response.

Definition fetch_document (request : Request) : M Response :=
  let file_name := dict_get (query_params request) (u "file_name") in
  if negb (truthy file_name)
  then raise (HTTPException 400 (u "file_name is required"))
  else
    let file_name := or_empty file_name in
    files_env <- environ_get w (u "UPLOADED_FILE_MAP") (u "{}") ;;
    files <-
      try_except_only is_JSONDecodeError
        (lift (json_loads w files_env))
        (ret (JDict [])) ;;
    match files with
    | JDict d =>
        match dict_get d file_name with
        | None => raise (HTTPException 404 (u "File not found"))
        | Some entry =>
            try_except
              (file_path <- lift (py_getitem entry (u "path")) ;;
               data <- read_file w file_path ;;
               ret (PlainTextResponse data))
              (fun e =>
                 ret (JSONResponse (JDict [(u "error", JStr (str_of e))]) 500))
        end
    | _ =>
        (* [files.keys()] in the log line, outside any [try] *)
        raise (Error (no_attribute files "keys"))
    end.
End Routes.

(** ** The vocabulary of the statements *)

(** *** Frames *)

Definition stream_end_frame : pystr :=
  serialize_sse_event [(u "type", JStr (u "stream_end"))].

Definition message_frame (text : pystr) : pystr :=
  serialize_sse_event [(u "content", JStr text); (u "type", JStr (u "message"))].

Definition completed_message_frame (text : pystr) (annotations : list json) : pystr :=
  serialize_sse_event
    [(u "content", JStr text);
     (u "annotations", JList annotations);
     (u "type", JStr (u "completed_message"))].

(** A frame of the form [{type: "error", message: ...}]. *)
Definition is_error_event (frame : pystr) : Prop :=
  exists message : pystr,
    frame = serialize_sse_event
              [(u "type", JStr (u "error")); (u "message", JStr message)].

(** The frames the handler methods build: the end-of-stream frame, or a
    frame whose first field is [content]. *)
Definition handler_frame (frame : pystr) : Prop :=
  frame = stream_end_frame \/
  exists v rest, frame = serialize_sse_event ((u "content", v) :: rest).

(** *** The file map *)

Definition file_map_variable : pystr := u "UPLOADED_FILE_MAP".

(** The file map that a request handled from trace [t] sees: the value of
    the environment variable (or ["{}"] when it is absent) parses to the
    dictionary [d]. *)
Definition file_map_at (w : World) (t : trace) (d : list (pystr * json)) : Prop :=
  json_loads w (match os_environ_get w t file_map_variable with
                | Some v => v
                | None => u "{}"
                end) = inr (JDict d).

(** The environment variable is absent, or its value is not JSON:
    [json.loads] rejects it with a [JSONDecodeError]. *)
Definition file_map_unusable (w : World) (t : trace) : Prop :=
  os_environ_get w t file_map_variable = None \/
  exists text e,
    os_environ_get w t file_map_variable = Some text
    /\ json_loads w text = inl e
    /\ exn_cls e = JSONDecodeError.

(** *** File lookups for the annotations of a message *)

(** [annotation["file_citation"]["file_id"]] *)
Definition cited_file_id (annotation : list (pystr * json)) : except json :=
  match py_getitem (JDict annotation) (u "file_citation") with
  | inl e => inl e
  | inr file_citation => py_getitem file_citation (u "file_id")
  end.

(** The file lookup for one annotation, made after the calls [t]. *)
Definition lookup (w : World) (t : trace) (annotation : list (pystr * json))
  : except (json * OpenAIFile) :=
  match cited_file_id annotation with
  | inl e => inl e
  | inr file_id =>
      match agents_get_file w t file_id with
      | inl e => inl e
      | inr file => inr (file_id, file)
      end
  end.

Definition with_file_name (annotation : list (pystr * json)) (file : OpenAIFile)
  : json :=
  JDict (dict_set annotation (u "file_name") (JStr (filename file))).

(** Every lookup succeeds: the annotations, in order, become [enriched],
    and the calls made are the lookups, in order. *)
Inductive lookups_succeed (w : World)
  : trace -> list (list (pystr * json)) -> list json -> trace -> Prop :=
| lookups_done t : lookups_succeed w t [] [] t
| lookups_step t annotation rest file_id file enriched t' :
    lookup w t annotation = inr (file_id, file) ->
    lookups_succeed w (t ++ [GetFile file_id]) rest enriched t' ->
    lookups_succeed w t (annotation :: rest)
                    (with_file_name annotation file :: enriched) t'.

(** Some lookup fails; the earlier ones succeed. *)
Inductive lookup_fails (w : World)
  : trace -> list (list (pystr * json)) -> Prop :=
| lookup_fails_here t annotation rest e :
    lookup w t annotation = inl e ->
    lookup_fails w t (annotation :: rest)
| lookup_fails_later t annotation rest file_id file :
    lookup w t annotation = inr (file_id, file) ->
    lookup_fails w (t ++ [GetFile file_id]) rest ->
    lookup_fails w t (annotation :: rest).

Definition is_lookup (c : call) : Prop := exists file_id, c = GetFile file_id.

(** *** Streams *)



(** *** The steps of a chat *)

(** The cookies allow the thread to be reused. *)
Definition reuses_thread (request : Request) (agent : Agent) : bool :=
  truthy (dict_get (cookies request) (u "thread_id"))
  && equals (dict_get (cookies request) (u "agent_id")) (agent_id_of agent).

(** The one call about the thread that [chat] makes, and its answer. *)
Definition thread_call (request : Request) (agent : Agent) : call :=
  if reuses_thread request agent
  then GetThread (or_empty (dict_get (cookies request) (u "thread_id")))
  else CreateThread.

Definition thread_answer (w : World) (request : Request) (agent : Agent)
                         (t : trace) : except Thread :=
  if reuses_thread request agent
  then agents_get_thread w t (or_empty (dict_get (cookies request) (u "thread_id")))
  else agents_create_thread w t.

(** The message [chat] takes from the body, or the exception of the second
    [try]. *)
Definition user_message_of (request : Request) : except json :=
  match request_json request with
  | inl e => inl e
  | inr user_data => py_get user_data (u "message") (JStr [])
  end.

Definition sse_headers : list (pystr * pystr) :=
  [(u "Cache-Control", u "no-cache");
   (u "Connection", u "keep-alive");
   (u "Content-Type", u "text/event-stream")].

(** The response of a chat on thread [thread_id]. *)
Definition chat_response (w : World) (thread_id agent_id : pystr) : Response :=
  set_cookie (u "agent_id") agent_id
    (set_cookie (u "thread_id") thread_id
       (StreamingResponse (get_result w thread_id agent_id) sse_headers)).

Definition is_thread_call (c : call) : Prop :=
  c = CreateThread \/ exists thread_id, c = GetThread thread_id.

(** The cookies are those of a reusable thread [T]. *)
Definition cookies_match (request : Request) (agent : Agent) (T : pystr) : Prop :=
  dict_get (cookies request) (u "thread_id") = Some T
  /\ T <> []
  /\ dict_get (cookies request) (u "agent_id") = Some (agent_id_of agent).

(** The cookies the client receives: those of the handler's response; the
    response made from an exception sets none. *)
Definition cookies_received (r : raised + Response) : list (pystr * pystr) :=
  match r with
  | inr resp => set_cookies resp
  | inl _ => []
  end.

(** *** Further vocabulary *)

(** A printable ASCII character, from the space to the tilde. *)
Definition printable (c : N) : Prop := 32 <= c <= 126.

Definition printableb (c : N) : bool := (32 <=? c) && (c <=? 126).

(** A stream-level error event seen as a completion event. *)
Definition forget_error (ev : event) : event :=
  match ev with
  | ErrorEvent _ => DoneEvent
  | _ => ev
  end.

(** The events that can make the loop yield: all but the kinds without a
    handler method of their own and the thread messages that are not
    completed. *)
Definition visible (ev : event) : bool :=
  match ev with
  | OtherEvent => false
  | ThreadMessagePosted message =>
      pystr_eqb (message_status message) (u "completed")
  | _ => true
  end.

(** The events whose handler method always returns a frame. *)
Definition always_emits (ev : event) : bool :=
  match ev with
  | MessageDelta _ | ThreadRunUpdate _ | ErrorEvent _ | DoneEvent => true
  | ThreadMessagePosted _ | OtherEvent => false
  end.

(** What the [try] around [json.loads] leaves when handling starts after
    the calls [t]: the value bound to [files] (the parsed value, or the empty
    dictionary after a [JSONDecodeError]), or the exception that the
    [except] clause lets through. *)
Definition configured_files (w : World) (t : trace) : raised + json :=
  match json_loads w (match os_environ_get w t file_map_variable with
                      | Some v => v
                      | None => u "{}"
                      end) with
  | inr v => inr v
  | inl e =>
      if is_JSONDecodeError (Error e) then inr (JDict []) else inl (Error e)
  end.

Definition is_dict (v : json) : bool :=
  match v with JDict _ => true | _ => false end.

(** Induction on a value through the lists nested in it. *)
Definition json_nested_ind (P : json -> Prop)
  (HNull : P JNull) (HBool : forall b, P (JBool b)) (HInt : forall n, P (JInt n))
  (HStr : forall s, P (JStr s))
  (HList : forall items, Forall P items -> P (JList items))
  (HDict : forall entries,
      Forall (fun kv => P (snd kv)) entries -> P (JDict entries))
  : forall v, P v :=
  fix go (v : json) : P v :=
    match v with
    | JNull => HNull
    | JBool b => HBool b
    | JInt n => HInt n
    | JStr s => HStr s
    | JList items =>
        HList items
          ((fix all (l : list json) : Forall P l :=
              match l with
              | [] => Forall_nil _
              | x :: l' => Forall_cons x (go x) (all l')
              end) items)
    | JDict entries =>
        HDict entries
          ((fix all (l : list (pystr * json))
              : Forall (fun kv => P (snd kv)) l :=
              match l with
              | [] => Forall_nil _
              | kv :: l' =>
                  @Forall_cons _ (fun kv => P (snd kv)) kv l' (go (snd kv)) (all l')
              end) entries)
    end.

(** One member of an object, as [json.dumps] writes it. *)
Definition dumps_member (kv : pystr * json) : pystr :=
  encode_string (fst kv) ++ u ": " ++ json_dumps (snd kv).

Definition is_create_stream (c : call) : Prop :=
  exists thread_id assistant_id, c = CreateStream thread_id assistant_id.

(** ** Worlds and requests used in the examples *)

Module Fixture.

Definition agent : Agent := {| agent_id_of := u "asst_1" |}.

Definition file_map : json :=
  JDict [(u "notes.md", JDict [(u "path", JStr (u "/data/notes.md"))]);
         (u "gone.md", JDict [(u "path", JStr (u "/data/gone.md"))])].

(** A text that opens two thousand lists and closes none. *)
Definition too_deep : pystr := repeat 91 2000.

(** A stand-in for [json.loads] that knows three texts, gives up on
    [too_deep] as CPython does, and rejects every other text. *)
Definition loads (s : pystr) : except json :=
  if pystr_eqb s (u "{}") then inr (JDict [])
  else if pystr_eqb s (json_dumps file_map) then inr file_map
  else if pystr_eqb s (u "[]") then inr (JList [])
  else if pystr_eqb s too_deep
       then inl (Exn RecursionError (u "maximum recursion depth exceeded"))
  else inl (Exn JSONDecodeError (u "Expecting value")).

Definition run : Stream :=
  {| stream_events :=
       [ThreadRunUpdate {| run_status := u "in_progress";
                           run_status_text := u "RunStatus.IN_PROGRESS";
                           run_thread_id := u "thread_7";
                           run_last_error := u "None" |};
        MessageDelta {| delta_text := u "Hel" |};
        MessageDelta {| delta_text := u "lo" |};
        DoneEvent];
     stream_failure := None |}.

Definition unavailable : exn := Exn ServiceError (u "service unavailable").

(** A service that answers every call; the environment holds [env]. *)
Definition world (env : option pystr) : World :=
  {| agents_get_thread := fun _ thread_id => inr {| thread_id_of := thread_id |};
     agents_create_thread := fun _ => inr {| thread_id_of := u "thread_7" |};
     agents_create_message := fun _ _ _ _ => inr (u "msg_1");
     agents_create_stream := fun _ _ _ => inr run;
     agents_get_file := fun _ _ => inr {| filename := u "notes.md" |};
     os_environ_get := fun _ _ => env;
     open_read := fun _ path =>
       match path with
       | JStr p =>
           if pystr_eqb p (u "/data/notes.md") then inr (u "# Notes")
           else inl (Exn OSError (u "[Errno 2] No such file or directory"))
       | _ => inl (Exn TypeError (u "expected str, bytes or os.PathLike object"))
       end;
     json_loads := loads |}.


(** The same service when the stream breaks after its second event. *)
Definition world_broken_stream : World :=
  {| agents_get_thread := agents_get_thread (world None);
     agents_create_thread := agents_create_thread (world None);
     agents_create_message := agents_create_message (world None);
     agents_create_stream := fun _ _ _ =>
       inr {| stream_events := firstn 2 (stream_events run);
              stream_failure := Some unavailable |};
     agents_get_file := agents_get_file (world None);
     os_environ_get := os_environ_get (world None);
     open_read := open_read (world None);
     json_loads := loads |}.

(** The same service when no file can be looked up. *)
Definition world_no_files : World :=
  {| agents_get_thread := agents_get_thread (world None);
     agents_create_thread := agents_create_thread (world None);
     agents_create_message := agents_create_message (world None);
     agents_create_stream := agents_create_stream (world None);
     agents_get_file := fun _ _ => inl unavailable;
     os_environ_get := os_environ_get (world None);
     open_read := open_read (world None);
     json_loads := loads |}.

Definition citation : list (pystr * json) :=
  [(u "type", JStr (u "file_citation"));
   (u "file_citation", JDict [(u "file_id", JStr (u "file_3"))])].

Definition cited_message (status : pystr) : ThreadMessage :=
  {| message_id := u "msg_9"; message_status := status;
     text_messages := [u "See the notes."];
     file_citation_annotations := [citation] |}.

Definition post (cookies : list (pystr * pystr)) (json : except json) : Request :=
  {| cookies := cookies; query_params := []; request_json := json |}.

Definition get (query_params : list (pystr * pystr)) : Request :=
  {| cookies := []; query_params := query_params;
     request_json := inl (Exn JSONDecodeError (u "Expecting value")) |}.

Definition bad_json : except json :=
  inl (Exn JSONDecodeError (u "Expecting value: line 1 column 1 (char 0)")).

Definition hello : except json :=
  inr (JDict [(u "message", JStr (u "hello"))]).

(** The same service when threads can be neither retrieved nor created. *)
Definition world_no_thread : World :=
  {| agents_get_thread := fun _ _ => inl unavailable;
     agents_create_thread := fun _ => inl unavailable;
     agents_create_message := agents_create_message (world None);
     agents_create_stream := agents_create_stream (world None);
     agents_get_file := agents_get_file (world None);
     os_environ_get := os_environ_get (world None);
     open_read := open_read (world None);
     json_loads := loads |}.

(** The same service when messages cannot be posted. *)
Definition world_no_message : World :=
  {| agents_get_thread := agents_get_thread (world None);
     agents_create_thread := agents_create_thread (world None);
     agents_create_message := fun _ _ _ _ => inl unavailable;
     agents_create_stream := agents_create_stream (world None);
     agents_get_file := agents_get_file (world None);
     os_environ_get := os_environ_get (world None);
     open_read := open_read (world None);
     json_loads := loads |}.

End Fixture.

(** * Properties *)

(** ** The wire format *)

(** [json.dumps] escapes the quote, the line feed, a Latin letter with an
    accent and a character outside the basic plane (as a surrogate pair). *)
Example dumps_delta :
  serialize_sse_event [(u "content", JStr (u "a" ++ [34; 10; 233; 128512]));
                       (u "type", JStr (u "message"))]
  = u "data: {" ++ [34] ++ u "content" ++ [34] ++ u ": " ++ [34]
      ++ u "a" ++ [92; 34] ++ [92] ++ u "n" ++ [92] ++ u "u00e9"
      ++ [92] ++ u "ud83d" ++ [92] ++ u "ude00" ++ [34] ++ u ", "
      ++ [34] ++ u "type" ++ [34] ++ u ": " ++ [34] ++ u "message" ++ [34]
      ++ u "}" ++ [10; 10].
Proof. vm_compute. reflexivity. Qed.

(** ** Partial messages *)

Lemma on_message_delta_returns delta t :
  on_message_delta delta t = (inr (Some (message_frame (delta_text delta))), t).
Proof. reflexivity. Qed.

Lemma serialize_sse_event_truthy data :
  str_truthy (serialize_sse_event data) = true.
Proof. reflexivity. Qed.

(** ** Fetching a document *)

Lemma truthy_nonempty (name : pystr) : name <> [] -> truthy (Some name) = true.
Proof. destruct name; [congruence | reflexivity]. Qed.

Lemma truthy_false v : truthy v = false <-> v = None \/ v = Some [].
Proof.
  destruct v as [[|c s]|]; simpl; split; intros H; auto;
    try discriminate H; destruct H as [H|H]; discriminate H.
Qed.

Lemma fetch_document_falsy w request t :
  truthy (dict_get (query_params request) (u "file_name")) = false ->
  fetch_document w request t =
    (inl (HTTPException 400 (u "file_name is required")), t).
Proof. intros H. unfold fetch_document. rewrite H. reflexivity. Qed.

(** What [fetch_document] does once the name is accepted and the file map
    is the dictionary [d]. *)
Lemma fetch_document_with_map w request t name d :
  dict_get (query_params request) (u "file_name") = Some name ->
  name <> [] ->
  file_map_at w t d ->
  fetch_document w request t =
    match dict_get d name with
    | None => raise (HTTPException 404 (u "File not found"))
    | Some entry =>
        try_except
          (file_path <- lift (py_getitem entry (u "path")) ;;
           data <- read_file w file_path ;;
           ret (PlainTextResponse data))
          (fun e => ret (JSONResponse (JDict [(u "error", JStr (str_of e))]) 500))
    end (t ++ [EnvironGet file_map_variable]).
Proof.
  intros Hq Hne Hmap. unfold fetch_document.
  rewrite Hq, (truthy_nonempty _ Hne). cbn [negb].
  unfold bind at 1, environ_get. cbv beta iota zeta. fold file_map_variable.
  unfold file_map_at in Hmap. rewrite Hmap. reflexivity.
Qed.

(** C10. A [file_name] parameter that is present but empty is rejected
    with HTTP 400 without any call to the environment or the file system,
    exactly as a request without the parameter is. *)
Theorem empty_file_name_is_missing w request t :
  dict_get (query_params request) (u "file_name") = Some [] ->
  fetch_document w request t =
    (inl (HTTPException 400 (u "file_name is required")), t)
  /\ forall request',
       dict_get (query_params request') (u "file_name") = None ->
       fetch_document w request' t = fetch_document w request t.
Proof.
  intros H. split.
  - apply fetch_document_falsy. rewrite H. reflexivity.
  - intros request' H'.
    rewrite !fetch_document_falsy; [reflexivity | rewrite H | rewrite H'];
      reflexivity.
Qed.

Lemma empty_file_name_is_missing_witness :
  let w := Fixture.world None in
  fetch_document w (Fixture.get [(u "file_name", [])]) [] =
    (inl (HTTPException 400 (u "file_name is required")), [])
  /\ fetch_document w (Fixture.get []) [] =
       fetch_document w (Fixture.get [(u "file_name", [])]) [].
Proof.
  intros w.
  destruct (empty_file_name_is_missing w (Fixture.get [(u "file_name", [])]) []
              eq_refl) as [H400 Hsame].
  split; [exact H400 | apply Hsame; reflexivity].
Defined.

(** C6, as stated, fails in two ways.  For a present but empty
    [file_name], with a value of the variable that is not JSON, the request
    is answered 400, not 404.  And for a value that [json.loads] gives up on
    with an exception other than [JSONDecodeError] (here the text that opens
    two thousand lists, a [RecursionError]), the [except] clause does not
    apply: the exception leaves the handler and the request fails with a
    500. *)
Lemma unusable_map_is_not_always_404 :
  let w := Fixture.world (Some (u "{not json")) in
  let request := Fixture.get [(u "file_name", [])] in
  let w_deep := Fixture.world (Some Fixture.too_deep) in
  let named := Fixture.get [(u "file_name", u "notes.md")] in
  (file_map_unusable w []
   /\ dict_get (query_params request) (u "file_name") = Some []
   /\ http_status (fst (fetch_document w request [])) = 400%Z
   /\ http_status (fst (fetch_document w request [])) <> 404%Z)
  /\
  (json_loads w_deep Fixture.too_deep =
     inl (Exn RecursionError (u "maximum recursion depth exceeded"))
   /\ fetch_document w_deep named [] =
        (inl (Error (Exn RecursionError (u "maximum recursion depth exceeded"))),
         [EnvironGet file_map_variable])
   /\ http_status (fst (fetch_document w_deep named [])) = 500%Z).
Proof.
  cbv zeta. split; [split; [| split; [| split]] | split; [| split]].
  - right. exists (u "{not json"), (Exn JSONDecodeError (u "Expecting value")).
    split; [reflexivity |]. split; [vm_compute |]; reflexivity.
  - reflexivity.
  - reflexivity.
  - vm_compute. discriminate.
  - vm_compute. reflexivity.
  - vm_compute. reflexivity.
  - vm_compute. reflexivity.
Qed.

(** C6, amended. When the variable is absent, or [json.loads] rejects its
    value with a [JSONDecodeError], every request with a non-empty
    [file_name] is answered by [HTTPException] 404, after the one read of the
    environment and without touching the file system.
    ([json.loads("{}")] is the empty dictionary.) *)
Theorem unusable_file_map_gives_404 w request t name :
  json_loads w (u "{}") = inr (JDict []) ->
  file_map_unusable w t ->
  dict_get (query_params request) (u "file_name") = Some name ->
  name <> [] ->
  fetch_document w request t =
    (inl (HTTPException 404 (u "File not found")),
     t ++ [EnvironGet file_map_variable]).
Proof.
  intros Hempty Hbad Hq Hne. unfold fetch_document.
  rewrite Hq, (truthy_nonempty _ Hne). cbn [negb].
  unfold bind at 1, environ_get. cbv beta iota zeta. fold file_map_variable.
  unfold bind at 1, try_except_only, lift.
  destruct Hbad as [Habsent | (text & e & Hset & Hparse & Hcls)].
  - rewrite Habsent, Hempty. reflexivity.
  - rewrite Hset, Hparse. unfold is_JSONDecodeError. rewrite Hcls. reflexivity.
Qed.

Lemma unusable_file_map_gives_404_witness :
  fetch_document (Fixture.world (Some (u "{not json")))
                 (Fixture.get [(u "file_name", u "notes.md")]) [] =
    (inl (HTTPException 404 (u "File not found")), [EnvironGet file_map_variable])
  /\ fetch_document (Fixture.world None)
                    (Fixture.get [(u "file_name", u "notes.md")]) [] =
       (inl (HTTPException 404 (u "File not found")), [EnvironGet file_map_variable]).
Proof.
  split.
  - apply (unusable_file_map_gives_404
             (Fixture.world (Some (u "{not json"))) _ [] (u "notes.md")).
    + reflexivity.
    + right. exists (u "{not json"), (Exn JSONDecodeError (u "Expecting value")).
      split; [reflexivity |]. split; [vm_compute |]; reflexivity.
    + reflexivity.
    + discriminate.
  - apply (unusable_file_map_gives_404 (Fixture.world None) _ [] (u "notes.md")).
    + reflexivity.
    + left. reflexivity.
    + reflexivity.
    + discriminate.
Defined.

(** C7, as stated, fails for a present but empty [file_name]: the empty
    name is not a key of the file map, yet the request is answered 400, not
    404. *)
Lemma empty_name_not_in_map_is_400 :
  let w := Fixture.world (Some (json_dumps Fixture.file_map)) in
  let request := Fixture.get [(u "file_name", [])] in
  (exists d, file_map_at w [] d /\ dict_get d [] = None)
  /\ dict_get (query_params request) (u "file_name") = Some []
  /\ http_status (fst (fetch_document w request [])) = 400%Z
  /\ http_status (fst (fetch_document w request [])) <> 404%Z.
Proof.
  cbv zeta. repeat split.
  - eexists. split; [vm_compute; reflexivity | reflexivity].
  - vm_compute. discriminate.
Qed.

(** C7, amended.  [GET /fetch-document] answers
    - 400 when [file_name] is missing or empty;
    and, for a non-empty name and a file map that is a dictionary,
    - 404 when the name is not a key of the map;
    - 500 with the JSON body [{"error": str(e)}] when the entry has no
      [path] or reading the path raises [e];
    - 200 with the text read from the path otherwise. *)
Theorem fetch_document_answers w request t :
  (dict_get (query_params request) (u "file_name") = None \/
   dict_get (query_params request) (u "file_name") = Some [] ->
   fetch_document w request t =
     (inl (HTTPException 400 (u "file_name is required")), t))
  /\
  (forall name d,
     dict_get (query_params request) (u "file_name") = Some name ->
     name <> [] ->
     file_map_at w t d ->
     let t1 := t ++ [EnvironGet file_map_variable] in
     (dict_get d name = None ->
      fetch_document w request t =
        (inl (HTTPException 404 (u "File not found")), t1))
     /\
     (forall entry e,
        dict_get d name = Some entry ->
        py_getitem entry (u "path") = inl e ->
        fetch_document w request t =
          (inr (JSONResponse (JDict [(u "error", JStr (exn_str e))]) 500), t1))
     /\
     (forall entry path e,
        dict_get d name = Some entry ->
        py_getitem entry (u "path") = inr path ->
        open_read w t1 path = inl e ->
        fetch_document w request t =
          (inr (JSONResponse (JDict [(u "error", JStr (exn_str e))]) 500),
           t1 ++ [OpenRead path]))
     /\
     (forall entry path data,
        dict_get d name = Some entry ->
        py_getitem entry (u "path") = inr path ->
        open_read w t1 path = inr data ->
        fetch_document w request t =
          (inr (PlainTextResponse data), t1 ++ [OpenRead path]))).
Proof.
  split; [intros H; now apply fetch_document_falsy, truthy_false |].
  intros name d Hq Hne Hmap t1.
  rewrite (fetch_document_with_map w request t name d Hq Hne Hmap).
  fold t1. repeat split.
  - intros ->. reflexivity.
  - intros entry e -> Hpath.
    unfold try_except, bind, lift. rewrite Hpath. reflexivity.
  - intros entry path e -> Hpath Hread.
    unfold try_except, bind, lift, read_file, perform.
    rewrite Hpath, Hread. reflexivity.
  - intros entry path data -> Hpath Hread.
    unfold try_except, bind, lift, read_file, perform.
    rewrite Hpath, Hread. reflexivity.
Qed.

Lemma fetch_document_answers_witness :
  let w := Fixture.world (Some (json_dumps Fixture.file_map)) in
  let seen := [EnvironGet file_map_variable] in
  fetch_document w (Fixture.get []) [] =
    (inl (HTTPException 400 (u "file_name is required")), [])
  /\ fetch_document w (Fixture.get [(u "file_name", u "other.md")]) [] =
       (inl (HTTPException 404 (u "File not found")), seen)
  /\ fetch_document w (Fixture.get [(u "file_name", u "gone.md")]) [] =
       (inr (JSONResponse
               (JDict [(u "error", JStr (u "[Errno 2] No such file or directory"))])
               500),
        seen ++ [OpenRead (JStr (u "/data/gone.md"))])
  /\ fetch_document w (Fixture.get [(u "file_name", u "notes.md")]) [] =
       (inr (PlainTextResponse (u "# Notes")),
        seen ++ [OpenRead (JStr (u "/data/notes.md"))]).
Proof.
  intros w seen.
  assert (Hmap : exists d, Fixture.file_map = JDict d /\ file_map_at w [] d).
  { eexists. split; [reflexivity | vm_compute; reflexivity]. }
  destruct Hmap as (d & Hd & Hmap). injection Hd as <-.
  split; [| split; [| split]].
  - apply (proj1 (fetch_document_answers w (Fixture.get []) [])).
    left. reflexivity.
  - destruct (fetch_document_answers
                w (Fixture.get [(u "file_name", u "other.md")]) []) as [_ H].
    specialize (H (u "other.md") _ eq_refl ltac:(discriminate) Hmap).
    apply (proj1 H). reflexivity.
  - destruct (fetch_document_answers
                w (Fixture.get [(u "file_name", u "gone.md")]) []) as [_ H].
    specialize (H (u "gone.md") _ eq_refl ltac:(discriminate) Hmap).
    destruct H as (_ & _ & Hunreadable & _).
    exact (Hunreadable _ (JStr (u "/data/gone.md"))
             (Exn OSError (u "[Errno 2] No such file or directory"))
             eq_refl eq_refl eq_refl).
  - destruct (fetch_document_answers
                w (Fixture.get [(u "file_name", u "notes.md")]) []) as [_ H].
    specialize (H (u "notes.md") _ eq_refl ltac:(discriminate) Hmap).
    destruct H as (_ & _ & _ & Hreadable).
    exact (Hreadable _ (JStr (u "/data/notes.md")) (u "# Notes")
             eq_refl eq_refl eq_refl).
Defined.

(** ** Thread messages *)

Lemma lookups_succeed_or_fail w annotations :
  forall t,
    lookup_fails w t annotations \/
    exists enriched t', lookups_succeed w t annotations enriched t'.
Proof.
  induction annotations as [|a rest IH]; intros t.
  - right. exists [], t. constructor.
  - destruct (lookup w t a) as [e | [file_id file]] eqn:Ha.
    + left. eapply lookup_fails_here; eassumption.
    + destruct (IH (t ++ [GetFile file_id])) as [Hf | (enriched & t' & Hs)].
      * left. eapply lookup_fails_later; eassumption.
      * right. do 2 eexists. eapply lookups_step; eassumption.
Qed.

Lemma lookups_exclusive w annotations :
  forall t enriched t',
    lookups_succeed w t annotations enriched t' ->
    ~ lookup_fails w t annotations.
Proof.
  intros t enriched t' Hs. induction Hs as [|t a rest id f out t' Ha _ IH];
    intros Hf; inversion Hf; subst.
  - congruence.
  - assert (file_id = id) by congruence. subst. auto.
Qed.

(** One round of the loop of [on_thread_message]. *)
Lemma enrich_step w annotation rest done t :
  enrich w (annotation :: rest) done t =
    match cited_file_id annotation with
    | inl e => (inl (Error e), t)
    | inr file_id =>
        match agents_get_file w t file_id with
        | inl e => (inl (Error e), t ++ [GetFile file_id])
        | inr file =>
            enrich w rest (done ++ [with_file_name annotation file])
                   (t ++ [GetFile file_id])
        end
    end.
Proof.
  cbn [enrich]. unfold cited_file_id, bind, lift, get_file, perform.
  destruct (py_getitem (JDict annotation) (u "file_citation")) as [e | fc];
    [reflexivity |].
  destruct (py_getitem fc (u "file_id")) as [e | file_id]; [reflexivity |].
  destruct (agents_get_file w t file_id); reflexivity.
Qed.

Lemma enrich_succeeds w t annotations enriched t' :
  lookups_succeed w t annotations enriched t' ->
  forall done, enrich w annotations done t = (inr (done ++ enriched), t').
Proof.
  induction 1 as [t | t a rest id f out t' Ha _ IH]; intros done.
  - cbn. unfold ret. now rewrite app_nil_r.
  - rewrite enrich_step. unfold lookup in Ha.
    destruct (cited_file_id a) as [e | file_id]; [discriminate |].
    destruct (agents_get_file w t file_id) as [e | file]; [discriminate |].
    injection Ha as -> ->. rewrite IH, <- app_assoc. reflexivity.
Qed.

Lemma enrich_fails w t annotations :
  lookup_fails w t annotations ->
  forall done, exists e t', enrich w annotations done t = (inl e, t').
Proof.
  induction 1 as [t a rest e Ha | t a rest id f Ha _ IH]; intros done;
    rewrite enrich_step; unfold lookup in Ha;
    destruct (cited_file_id a) as [e' | file_id]; try discriminate;
    try (do 2 eexists; reflexivity);
    destruct (agents_get_file w t file_id) as [e' | file]; try discriminate;
    try (do 2 eexists; reflexivity).
  injection Ha as -> ->. apply IH.
Qed.

Lemma pystr_eqb_eq (a b : pystr) : pystr_eqb a b = true <-> a = b.
Proof.
  unfold pystr_eqb. destruct (list_eq_dec N.eq_dec a b); split;
    congruence.
Qed.

Lemma pystr_eqb_neq (a b : pystr) : pystr_eqb a b = false <-> a <> b.
Proof.
  unfold pystr_eqb. destruct (list_eq_dec N.eq_dec a b); split;
    congruence.
Qed.

Lemma on_thread_message_not_completed w message t :
  message_status message <> u "completed" ->
  on_thread_message w message t = (inr None, t).
Proof.
  intros H. unfold on_thread_message, try_except.
  rewrite (proj2 (pystr_eqb_neq _ _) H). reflexivity.
Qed.

Lemma on_thread_message_lookup_fails w message t :
  message_status message = u "completed" ->
  lookup_fails w t (file_citation_annotations message) ->
  exists t', on_thread_message w message t = (inr None, t').
Proof.
  intros Hc Hf. unfold on_thread_message, try_except.
  rewrite (proj2 (pystr_eqb_eq _ _) Hc). cbn [negb]. unfold bind at 1.
  destruct (enrich_fails _ _ _ Hf []) as (e & t' & ->).
  exists t'. reflexivity.
Qed.

Lemma on_thread_message_completed w message t enriched t' :
  message_status message = u "completed" ->
  lookups_succeed w t (file_citation_annotations message) enriched t' ->
  on_thread_message w message t =
    (inr match text_messages message with
         | text :: _ => Some (completed_message_frame text enriched)
         | [] => None
         end, t').
Proof.
  intros Hc Hs. unfold on_thread_message, try_except.
  rewrite (proj2 (pystr_eqb_eq _ _) Hc). cbn [negb]. unfold bind at 1.
  rewrite (enrich_succeeds _ _ _ _ _ Hs []). cbn [app].
  unfold bind, lift. destruct (text_messages message); reflexivity.
Qed.

(** The handler never raises. *)
Lemma on_thread_message_returns w message t :
  exists rv t', on_thread_message w message t = (inr rv, t').
Proof.
  unfold on_thread_message, try_except.
  match goal with |- context [match ?m t with _ => _ end] =>
    destruct (m t) as [[e | rv] t'] end; do 2 eexists; reflexivity.
Qed.

(** C5, as stated, fails for a completed message without a text part: no
    lookup fails (there is none to make), yet no frame is emitted. *)
Lemma completed_message_without_text_yields_nothing :
  let w := Fixture.world None in
  let message :=
    {| message_id := u "msg_9"; message_status := u "completed";
       text_messages := []; file_citation_annotations := [] |} in
  message_status message = u "completed"
  /\ ~ lookup_fails w [] (file_citation_annotations message)
  /\ consume w [ThreadMessagePosted message] [] = ((None, []), []).
Proof.
  cbv zeta. repeat split.
  intros H. inversion H.
Qed.

(** C5, amended.  For a thread-message event the stream loop
    - yields nothing when the status is not ["completed"];
    - yields nothing when the status is ["completed"] and a file lookup
      fails, and goes on with the events that follow;
    - yields exactly one frame, [{content: <the first text part>,
      annotations: <the annotations, each with its file_name>,
      type: "completed_message"}], when the status is ["completed"], every
      lookup succeeds and the message has a text part. *)
Theorem thread_message_emission w message t :
  (message_status message <> u "completed" ->
   consume w [ThreadMessagePosted message] t = ((None, []), t))
  /\
  (message_status message = u "completed" ->
   lookup_fails w t (file_citation_annotations message) ->
   exists t', forall rest,
     consume w (ThreadMessagePosted message :: rest) t = consume w rest t')
  /\
  (forall enriched t' text more,
     message_status message = u "completed" ->
     lookups_succeed w t (file_citation_annotations message) enriched t' ->
     text_messages message = text :: more ->
     consume w [ThreadMessagePosted message] t =
       ((None,
         [serialize_sse_event
            [(u "content", JStr text);
             (u "annotations", JList enriched);
             (u "type", JStr (u "completed_message"))]]),
        t')).
Proof.
  repeat split.
  - intros H. cbn [consume process_event].
    rewrite (on_thread_message_not_completed _ _ _ H). reflexivity.
  - intros Hc Hf.
    destruct (on_thread_message_lookup_fails _ _ _ Hc Hf) as (t' & Hm).
    exists t'. intros rest. cbn [consume process_event]. rewrite Hm.
    cbn [app]. destruct (consume w rest t') as [[r frames] t'']. reflexivity.
  - intros enriched t' text more Hc Hs Ht. cbn [consume process_event].
    rewrite (on_thread_message_completed _ _ _ _ _ Hc Hs), Ht. reflexivity.
Qed.

Lemma thread_message_emission_witness :
  let w := Fixture.world None in
  let message := Fixture.cited_message in
  consume w [ThreadMessagePosted (message (u "in_progress"))] [] = ((None, []), [])
  /\ (exists t', forall rest,
        consume Fixture.world_no_files
                (ThreadMessagePosted (message (u "completed")) :: rest) [] =
          consume Fixture.world_no_files rest t')
  /\ consume w [ThreadMessagePosted (message (u "completed"))] [] =
       ((None,
         [serialize_sse_event
            [(u "content", JStr (u "See the notes."));
             (u "annotations",
              JList [JDict (Fixture.citation
                              ++ [(u "file_name", JStr (u "notes.md"))])]);
             (u "type", JStr (u "completed_message"))]]),
        [GetFile (JStr (u "file_3"))]).
Proof.
  intros w message. split; [| split].
  - apply (proj1 (thread_message_emission w (message (u "in_progress")) [])).
    discriminate.
  - apply (proj1 (proj2 (thread_message_emission
                           Fixture.world_no_files (message (u "completed")) []))
                 eq_refl).
    eapply lookup_fails_here. reflexivity.
  - refine (proj2 (proj2 (thread_message_emission w (message (u "completed")) []))
                  _ _ (u "See the notes.") [] eq_refl _ eq_refl).
    eapply (lookups_step w [] Fixture.citation [] (JStr (u "file_3"))
                         {| filename := u "notes.md" |});
      [reflexivity | constructor].
Defined.

(** ** The stream loop *)

Lemma handler_frame_not_error frame :
  handler_frame frame -> ~ is_error_event frame.
Proof.
  intros [-> | (v & rest & ->)] [message H].
  - apply (f_equal (fun f => nth_error f 16)) in H.
    vm_compute in H. discriminate H.
  - apply (f_equal (fun f => nth_error f 8)) in H.
    destruct rest as [|[k x] rest]; vm_compute in H; discriminate H.
Qed.

Lemma error_frame_is_error_event e : is_error_event (error_frame e).
Proof. exists (str_of e). reflexivity. Qed.

Lemma enrich_calls w annotations :
  forall done t r t',
    enrich w annotations done t = (r, t') ->
    exists calls, t' = t ++ calls /\ Forall is_lookup calls.
Proof.
  induction annotations as [|a rest IH]; intros done t r t' H.
  - injection H as _ <-. exists []. split; [now rewrite app_nil_r | constructor].
  - rewrite enrich_step in H.
    destruct (cited_file_id a) as [e | file_id].
    + injection H as _ <-. exists []. split; [now rewrite app_nil_r | constructor].
    + destruct (agents_get_file w t file_id) as [e | file].
      * injection H as _ <-. exists [GetFile file_id].
        split; [reflexivity | repeat constructor; now exists file_id].
      * apply IH in H. destruct H as (calls & -> & Hc).
        exists (GetFile file_id :: calls). split.
        -- now rewrite <- app_assoc.
        -- constructor; [now exists file_id | assumption].
Qed.

(** What a handler method gives for an event: it never raises, a frame it
    returns is one of the handler's frames, and its only calls to the world
    are file lookups. *)
Lemma process_event_spec w ev t :
  exists rv calls,
    process_event w ev t = (inr rv, t ++ calls)
    /\ Forall is_lookup calls
    /\ (forall frame, rv = Some frame -> handler_frame frame).
Proof.
  destruct ev as [delta | message | run | data | |]; cbn [process_event].
  - exists (Some (message_frame (delta_text delta))), [].
    rewrite app_nil_r. repeat split; [constructor |].
    intros frame [= <-]. right. do 2 eexists. reflexivity.
  - unfold on_thread_message, try_except.
    destruct (pystr_eqb (message_status message) (u "completed")); cbn [negb].
    + unfold bind at 1.
      destruct (enrich w (file_citation_annotations message) [] t)
        as [[e | annotations] t'] eqn:He;
        destruct (enrich_calls _ _ _ _ _ _ He) as (calls & -> & Hc).
      * exists None, calls. repeat split; [assumption | discriminate].
      * unfold bind, lift, ret.
        destruct (first (text_messages message)) as [e | content].
        -- exists None, calls. repeat split; [assumption | discriminate].
        -- eexists (Some _), calls. repeat split; [assumption |].
           intros frame [= <-]. right. do 2 eexists. reflexivity.
    + exists None, []. rewrite app_nil_r.
      repeat split; [constructor | discriminate].
  - eexists (Some _), []. rewrite app_nil_r. repeat split; [constructor |].
    intros frame [= <-]. right. do 2 eexists. reflexivity.
  - exists (Some stream_end_frame), []. rewrite app_nil_r.
    repeat split; [constructor |]. intros frame [= <-]. now left.
  - exists (Some stream_end_frame), []. rewrite app_nil_r.
    repeat split; [constructor |]. intros frame [= <-]. now left.
  - exists None, []. rewrite app_nil_r.
    repeat split; [constructor | discriminate].
Qed.

Lemma consume_cons w ev rest t rv t1 :
  process_event w ev t = (inr rv, t1) ->
  consume w (ev :: rest) t =
    (let '((r, frames), t2) := consume w rest t1 in
     ((r, yielded rv ++ frames), t2)).
Proof. intros H. cbn [consume]. rewrite H. reflexivity. Qed.

(** The loop never ends by an exception of a handler; it yields handler
    frames only, and its calls to the world are file lookups. *)
Lemma consume_spec w events :
  forall t, exists frames calls,
    consume w events t = ((None, frames), t ++ calls)
    /\ Forall handler_frame frames
    /\ Forall is_lookup calls.
Proof.
  induction events as [|ev rest IH]; intros t.
  - exists [], []. rewrite app_nil_r. repeat split; constructor.
  - destruct (process_event_spec w ev t) as (rv & calls1 & Hev & Hc1 & Hrv).
    destruct (IH (t ++ calls1)) as (frames & calls2 & Hrest & Hf & Hc2).
    exists (yielded rv ++ frames), (calls1 ++ calls2).
    rewrite (consume_cons _ _ _ _ _ _ Hev), Hrest, app_assoc.
    repeat split.
    + apply Forall_app. split; [| assumption].
      destruct rv as [s|]; cbn; [| constructor].
      destruct (str_truthy s); constructor; [now apply Hrv | constructor].
    + apply Forall_app. now split.
Qed.

Lemma consume_app w events1 events2 :
  forall t frames1 t1,
    consume w events1 t = ((None, frames1), t1) ->
    consume w (events1 ++ events2) t =
      (let '((r, frames2), t2) := consume w events2 t1 in
       ((r, frames1 ++ frames2), t2)).
Proof.
  induction events1 as [|ev rest IH]; intros t frames1 t1 H.
  - injection H as <- <-. cbn [app].
    destruct (consume w events2 t) as [[r frames2] t2]. reflexivity.
  - destruct (process_event_spec w ev t) as (rv & calls & Hev & _).
    rewrite (consume_cons _ _ _ _ _ _ Hev) in H.
    cbn [app]. rewrite (consume_cons _ _ _ _ _ _ Hev).
    destruct (consume w rest (t ++ calls)) as [[r frames] t'] eqn:Hrest.
    injection H as -> <- <-.
    rewrite (IH _ _ _ Hrest).
    destruct (consume w events2 t') as [[r2 frames2] t2].
    now rewrite app_assoc.
Qed.


(** [get_result], case by case. *)
Lemma get_result_cases w thread_id agent_id t :
  exists frames calls,
    let t1 := t ++ [CreateStream thread_id agent_id] in
    Forall handler_frame frames /\ Forall is_lookup calls /\
    match agents_create_stream w t thread_id agent_id with
    | inl e =>
        get_result w thread_id agent_id t = ([error_frame (Error e)], t1)
    | inr stream =>
        consume w (stream_events stream) t1 = ((None, frames), t1 ++ calls) /\
        get_result w thread_id agent_id t =
          (match stream_failure stream with
           | Some e => frames ++ [error_frame (Error e)]
           | None => frames
           end, t1 ++ calls)
    end.
Proof.
  unfold get_result, create_stream, perform.
  destruct (agents_create_stream w t thread_id agent_id) as [e | stream].
  - exists [], []. repeat split; constructor.
  - destruct (consume_spec w (stream_events stream)
                           (t ++ [CreateStream thread_id agent_id]))
      as (frames & calls & Hc & Hf & Hl).
    exists frames, calls. cbv zeta. rewrite Hc.
    repeat split; try assumption.
    destruct (stream_failure stream); reflexivity.
Qed.



Example broken_stream_frames :
  get_result Fixture.world_broken_stream (u "thread_7") (u "asst_1") [] =
    ([serialize_sse_event
        [(u "content", JStr (u "ThreadRun status: RunStatus.IN_PROGRESS, thread ID: thread_7"));
         (u "type", JStr (u "thread_run"))];
      message_frame (u "Hel");
      error_frame (Error Fixture.unavailable)],
     [CreateStream (u "thread_7") (u "asst_1")]).
Proof. vm_compute. reflexivity. Qed.

(** ** Partial messages in a stream *)

Lemma message_frame_wire text :
  message_frame text =
    u "data: {" ++ encode_string (u "content") ++ u ": " ++ encode_string text
      ++ u ", " ++ encode_string (u "type") ++ u ": "
      ++ encode_string (u "message") ++ u "}" ++ [10; 10].
Proof.
  unfold message_frame, serialize_sse_event. cbn [json_dumps].
  now rewrite <- !app_assoc.
Qed.

(** C9. Wherever a partial-message event stands in a stream, the stream
    loop yields for it exactly one frame, between the frames of the events
    before it and those of the events after it: the SSE frame of
    [{content: <the delta's text>, type: "message"}], that is the text
    [data: {"content": <the text as a JSON string>, "type": "message"}]
    followed by a blank line.  The event makes no call to the world. *)
Theorem delta_yields_one_message_frame w events delta more t :
  let frame :=
    serialize_sse_event
      [(u "content", JStr (delta_text delta)); (u "type", JStr (u "message"))] in
  exists before after t1 t2,
    consume w events t = ((None, before), t1)
    /\ consume w [MessageDelta delta] t1 = ((None, [frame]), t1)
    /\ consume w more t1 = ((None, after), t2)
    /\ consume w (events ++ MessageDelta delta :: more) t =
         ((None, before ++ [frame] ++ after), t2)
    /\ frame =
         u "data: {" ++ encode_string (u "content") ++ u ": "
           ++ encode_string (delta_text delta)
           ++ u ", " ++ encode_string (u "type") ++ u ": "
           ++ encode_string (u "message") ++ u "}" ++ [10; 10].
Proof.
  intros frame.
  destruct (consume_spec w events t) as (before & calls1 & H1 & _).
  destruct (consume_spec w more (t ++ calls1)) as (after & calls2 & H2 & _).
  exists before, after, (t ++ calls1), ((t ++ calls1) ++ calls2).
  split; [exact H1 |]. split; [reflexivity |]. split; [exact H2 |]. split.
  - rewrite (consume_app _ _ _ _ _ _ H1).
    rewrite (consume_cons w (MessageDelta delta) more (t ++ calls1)
                          (Some frame) (t ++ calls1) eq_refl).
    rewrite H2. reflexivity.
  - apply message_frame_wire.
Qed.

(** ** Chat *)

(** [chat], case by case. *)
Lemma chat_cases w request agent t :
  chat w request agent t =
    let t1 := t ++ [thread_call request agent] in
    match thread_answer w request agent t with
    | inl e => (inl (HTTPException 400 (u "Thread error: " ++ exn_str e)), t1)
    | inr thread =>
        match user_message_of request with
        | inl e => (inl (HTTPException 400 (u "Invalid JSON: " ++ exn_str e)), t1)
        | inr user_message =>
            let posted :=
              CreateMessage (thread_id_of thread) (u "user") user_message in
            match agents_create_message w t1 (thread_id_of thread) (u "user")
                                        user_message with
            | inl e =>
                (inl (HTTPException 500
                        (u "Message creation error: " ++ exn_str e)),
                 t1 ++ [posted])
            | inr _ =>
                (inr (chat_response w (thread_id_of thread) (agent_id_of agent)),
                 t1 ++ [posted])
            end
        end
    end.
Proof.
  unfold chat, thread_call, thread_answer, user_message_of, reuses_thread.
  unfold bind at 1. unfold try_except at 1.
  set (thread_id := dict_get (cookies request) (u "thread_id")).
  destruct (truthy thread_id
            && equals (dict_get (cookies request) (u "agent_id"))
                      (agent_id_of agent));
    unfold get_thread, create_thread, perform; cbv zeta.
  1: destruct (agents_get_thread w t (or_empty thread_id)) as [e | thread];
       [reflexivity |].
  2: destruct (agents_create_thread w t) as [e | thread]; [reflexivity |].
  all: unfold bind at 1; unfold try_except at 1; unfold bind at 1; unfold lift.
  all: destruct (request_json request) as [e | user_data]; [reflexivity |].
  all: destruct (py_get user_data (u "message") (JStr [])) as [e | user_message];
         [reflexivity |].
  all: unfold bind, try_except, create_message, perform.
  all: match goal with |- context [agents_create_message ?a ?b ?c ?d ?e] =>
         destruct (agents_create_message a b c d e) end; reflexivity.
Qed.

Lemma reuses_thread_true request agent :
  reuses_thread request agent = true <-> exists T, cookies_match request agent T.
Proof.
  unfold reuses_thread, cookies_match, truthy, equals. split.
  - intros H. apply andb_true_iff in H. destruct H as [Ht Ha].
    destruct (dict_get (cookies request) (u "thread_id")) as [T|]; [| discriminate].
    destruct (dict_get (cookies request) (u "agent_id")) as [A|]; [| discriminate].
    apply pystr_eqb_eq in Ha. subst A. exists T. repeat split.
    intros ->. discriminate.
  - intros (T & -> & Hne & ->). apply andb_true_iff. split.
    + destruct T; [congruence | reflexivity].
    + now apply pystr_eqb_eq.
Qed.

Lemma thread_call_reused request agent T :
  cookies_match request agent T -> thread_call request agent = GetThread T.
Proof.
  intros H. unfold thread_call.
  rewrite (proj2 (reuses_thread_true request agent) (ex_intro _ T H)).
  destruct H as (-> & _). reflexivity.
Qed.

Lemma thread_call_created request agent :
  ~ (exists T, cookies_match request agent T) ->
  thread_call request agent = CreateThread.
Proof.
  intros H. unfold thread_call.
  destruct (reuses_thread request agent) eqn:Hr; [| reflexivity].
  apply reuses_thread_true in Hr. contradiction.
Qed.

(** After its call about the thread, [chat] makes at most one more call,
    which posts the message. *)
Lemma chat_calls w request agent t :
  exists calls,
    snd (chat w request agent t) = t ++ thread_call request agent :: calls
    /\ Forall (fun c => ~ is_thread_call c) calls.
Proof.
  rewrite chat_cases. cbv zeta.
  destruct (thread_answer w request agent t) as [e | thread].
  - exists []. split; [reflexivity | constructor].
  - destruct (user_message_of request) as [e | user_message].
    + exists []. split; [reflexivity | constructor].
    + exists [CreateMessage (thread_id_of thread) (u "user") user_message].
      split.
      * destruct (agents_create_message _ _ _ _ _); cbn [snd];
          now rewrite <- app_assoc.
      * repeat constructor. intros [H | [id H]]; discriminate H.
Qed.

(** C1, as stated, fails: a request whose body is not JSON is answered
    400 only after a thread has been created for it. *)
Lemma invalid_json_still_creates_thread :
  let request := Fixture.post [] Fixture.bad_json in
  (exists e, request_json request = inl e)
  /\ chat (Fixture.world None) request Fixture.agent [] =
       (inl (HTTPException 400
               (u "Invalid JSON: Expecting value: line 1 column 1 (char 0)")),
        [CreateThread]).
Proof. cbv zeta. split; [eexists |]; reflexivity. Qed.

(** C1, amended.  A request whose body is not valid JSON is answered 400,
    and the only call made to the service while handling it is the one call
    about the thread (retrieval or creation) that precedes the parsing of
    the body: no message is created and no stream is opened. *)
Theorem invalid_json_is_400 w request agent t e :
  request_json request = inl e ->
  http_status (fst (chat w request agent t)) = 400%Z
  /\ snd (chat w request agent t) = t ++ [thread_call request agent]
  /\ is_thread_call (thread_call request agent).
Proof.
  intros H. rewrite chat_cases. cbv zeta. unfold user_message_of. rewrite H.
  repeat split.
  - destruct (thread_answer w request agent t); reflexivity.
  - destruct (thread_answer w request agent t); reflexivity.
  - unfold is_thread_call, thread_call.
    destruct (reuses_thread request agent); [right; eexists | left]; reflexivity.
Qed.

Lemma invalid_json_is_400_witness :
  let request :=
    Fixture.post [(u "thread_id", u "thread_5"); (u "agent_id", u "asst_1")]
                 Fixture.bad_json in
  let result := chat (Fixture.world None) request Fixture.agent [] in
  http_status (fst result) = 400%Z
  /\ snd result = [] ++ [thread_call request Fixture.agent]
  /\ is_thread_call (thread_call request Fixture.agent).
Proof.
  intros request result.
  exact (invalid_json_is_400 (Fixture.world None) request Fixture.agent [] _
                             eq_refl).
Defined.

(** C3, as stated, fails: a body without [message] is not rejected; an
    empty message is posted to the thread and the response is the stream. *)
Lemma body_without_message_is_posted :
  let request := Fixture.post [] (inr (JDict [])) in
  let result := chat (Fixture.world None) request Fixture.agent [] in
  request_json request = inr (JDict [])
  /\ http_status (fst result) = 200%Z
  /\ snd result = [CreateThread; CreateMessage (u "thread_7") (u "user") (JStr [])].
Proof. cbv zeta. repeat split. Qed.

(** C3, amended.  [message] is optional: for a body that is a JSON object
    without [message], once the call about the thread has answered, the
    handler posts the empty string to the thread as the user's message; the
    response is the stream (200) when the post succeeds and 500 when it
    fails. *)
Theorem missing_message_is_posted_empty w request agent t d thread :
  request_json request = inr (JDict d) ->
  dict_get d (u "message") = None ->
  thread_answer w request agent t = inr thread ->
  let t1 := t ++ [thread_call request agent] in
  let tid := thread_id_of thread in
  snd (chat w request agent t) = t1 ++ [CreateMessage tid (u "user") (JStr [])]
  /\ (forall message_id,
        agents_create_message w t1 tid (u "user") (JStr []) = inr message_id ->
        fst (chat w request agent t) =
          inr (chat_response w tid (agent_id_of agent))
        /\ http_status (fst (chat w request agent t)) = 200%Z)
  /\ (forall e,
        agents_create_message w t1 tid (u "user") (JStr []) = inl e ->
        fst (chat w request agent t) =
          inl (HTTPException 500 (u "Message creation error: " ++ exn_str e))).
Proof.
  intros Hjson Hd Hthread t1 tid. rewrite chat_cases. cbv zeta.
  unfold user_message_of. rewrite Hthread, Hjson. cbn [py_get]. rewrite Hd.
  fold t1 tid. split; [| split].
  - destruct (agents_create_message w t1 tid (u "user") (JStr []));
      reflexivity.
  - intros message_id ->. split; reflexivity.
  - intros e ->. reflexivity.
Qed.

Lemma missing_message_is_posted_empty_witness :
  let request := Fixture.post [] (inr (JDict [(u "text", JStr (u "hi"))])) in
  let result := chat (Fixture.world None) request Fixture.agent [] in
  snd result = [CreateThread; CreateMessage (u "thread_7") (u "user") (JStr [])]
  /\ http_status (fst result) = 200%Z.
Proof.
  intros request result.
  destruct (missing_message_is_posted_empty
              (Fixture.world None) request Fixture.agent []
              [(u "text", JStr (u "hi"))] {| thread_id_of := u "thread_7" |}
              eq_refl eq_refl eq_refl) as (Hcalls & Hok & _).
  split; [exact Hcalls | exact (proj2 (Hok (u "msg_1") eq_refl))].
Defined.

(** C4, as stated, fails on the cookies: a request without cookies whose
    body is not JSON has a new thread created for it, but its response, the
    400 of the [HTTPException], sets no cookie. *)
Lemma error_response_sets_no_cookies :
  let w := Fixture.world None in
  let request := Fixture.post [] Fixture.bad_json in
  let result := chat w request Fixture.agent [] in
  snd result = [CreateThread]
  /\ agents_create_thread w [] = inr {| thread_id_of := u "thread_7" |}
  /\ cookies_received (fst result) = []
  /\ cookies_received (fst result) <>
       [(u "thread_id", u "thread_7"); (u "agent_id", u "asst_1")].
Proof. cbv zeta. repeat split. vm_compute. discriminate. Qed.

(** C4, amended.  When the [thread_id] cookie is a non-empty [T] and the
    [agent_id] cookie is the agent's identifier, the handler's first call
    retrieves thread [T] and no thread is created; otherwise its first call
    creates a thread and none is retrieved.  In both cases, when the handler
    returns its response (the body parsed and the message was posted), that
    response streams the run on the thread that the call answered, and sets
    [thread_id] to the identifier of that thread and [agent_id] to the
    agent's identifier, in this order. *)
Theorem thread_reuse_and_cookies w request agent t :
  (forall T,
     cookies_match request agent T ->
     thread_answer w request agent t = agents_get_thread w t T
     /\ exists calls,
          snd (chat w request agent t) = t ++ GetThread T :: calls
          /\ Forall (fun c => ~ is_thread_call c) calls)
  /\
  (~ (exists T, cookies_match request agent T) ->
   thread_answer w request agent t = agents_create_thread w t
   /\ exists calls,
        snd (chat w request agent t) = t ++ CreateThread :: calls
        /\ Forall (fun c => ~ is_thread_call c) calls)
  /\
  (forall resp,
     fst (chat w request agent t) = inr resp ->
     exists thread,
       thread_answer w request agent t = inr thread
       /\ response_body resp =
            Streaming (get_result w (thread_id_of thread) (agent_id_of agent))
       /\ set_cookies resp =
            [(u "thread_id", thread_id_of thread);
             (u "agent_id", agent_id_of agent)]).
Proof.
  repeat split.
  - unfold thread_answer.
    rewrite (proj2 (reuses_thread_true request agent) (ex_intro _ T H)).
    destruct H as (-> & _). reflexivity.
  - rewrite <- (thread_call_reused _ _ _ H). apply chat_calls.
  - unfold thread_answer.
    destruct (reuses_thread request agent) eqn:Hr; [| reflexivity].
    apply reuses_thread_true in Hr. contradiction.
  - rewrite <- (thread_call_created _ _ H). apply chat_calls.
  - intros resp. rewrite chat_cases. cbv zeta.
    destruct (thread_answer w request agent t) as [e | thread];
      [discriminate |].
    destruct (user_message_of request) as [e | user_message]; [discriminate |].
    destruct (agents_create_message _ _ _ _ _); [discriminate |].
    intros [= <-]. exists thread. repeat split.
Qed.

Lemma thread_reuse_and_cookies_witness :
  let w := Fixture.world None in
  let resumed :=
    Fixture.post [(u "thread_id", u "thread_5"); (u "agent_id", u "asst_1")]
                 Fixture.hello in
  let stale :=
    Fixture.post [(u "thread_id", u "thread_5"); (u "agent_id", u "asst_0")]
                 Fixture.hello in
  (exists calls,
     snd (chat w resumed Fixture.agent []) = [] ++ GetThread (u "thread_5") :: calls
     /\ Forall (fun c => ~ is_thread_call c) calls)
  /\ (exists calls,
        snd (chat w stale Fixture.agent []) = [] ++ CreateThread :: calls
        /\ Forall (fun c => ~ is_thread_call c) calls)
  /\ (exists thread,
        thread_answer w stale Fixture.agent [] = inr thread
        /\ response_body (chat_response w (u "thread_7") (u "asst_1")) =
             Streaming (get_result w (thread_id_of thread) (u "asst_1"))
        /\ set_cookies (chat_response w (u "thread_7") (u "asst_1")) =
             [(u "thread_id", thread_id_of thread);
              (u "agent_id", agent_id_of Fixture.agent)]).
Proof.
  intros w resumed stale. split; [| split].
  - apply (proj1 (thread_reuse_and_cookies w resumed Fixture.agent [])
                 (u "thread_5")).
    repeat split. discriminate.
  - apply (proj1 (proj2 (thread_reuse_and_cookies w stale Fixture.agent []))).
    intros (T & _ & _ & H). vm_compute in H. discriminate H.
  - apply (proj2 (proj2 (thread_reuse_and_cookies w stale Fixture.agent []))).
    reflexivity.
Defined.

(** ** How the stream of a chat ends *)




(** ** Runs of the two routes *)

Example chat_hello :
  let w := Fixture.world None in
  let sent :=
    [CreateThread; CreateMessage (u "thread_7") (u "user") (JStr (u "hello"))] in
  chat w (Fixture.post [] Fixture.hello) Fixture.agent [] =
    (inr (chat_response w (u "thread_7") (u "asst_1")), sent)
  /\ get_result w (u "thread_7") (u "asst_1") sent =
       ([serialize_sse_event
           [(u "content",
             JStr (u "ThreadRun status: RunStatus.IN_PROGRESS, thread ID: thread_7"));
            (u "type", JStr (u "thread_run"))];
         message_frame (u "Hel");
         message_frame (u "lo");
         stream_end_frame],
        sent ++ [CreateStream (u "thread_7") (u "asst_1")]).
Proof. split; [rewrite chat_cases |]; reflexivity. Qed.

(** A body that is JSON but not an object has no [get]: the second [try]
    turns the [AttributeError] into a 400. *)
Example chat_body_not_an_object :
  http_status
    (fst (chat (Fixture.world None) (Fixture.post [] (inr (JList [])))
               Fixture.agent [])) = 400%Z.
Proof. reflexivity. Qed.

(** A file map that is JSON but not an object has no [keys]: the log line
    raises outside any [try], and the request fails with a 500. *)
Example file_map_not_an_object :
  let w := Fixture.world (Some (u "[]")) in
  fetch_document w (Fixture.get [(u "file_name", u "notes.md")]) [] =
    (inl (Error (no_attribute (JList []) "keys")),
     [EnvironGet file_map_variable])
  /\ http_status
       (fst (fetch_document w (Fixture.get [(u "file_name", u "notes.md")]) []))
     = 500%Z.
Proof. split; reflexivity. Qed.

(** * Further properties *)

(** ** The characters of a frame *)

Lemma printable_iff c : printableb c = true <-> printable c.
Proof.
  unfold printableb, printable. rewrite andb_true_iff, !N.leb_le. tauto.
Qed.

Lemma printable_literal (s : string) :
  forallb printableb (u s) = true -> Forall printable (u s).
Proof.
  intros H. apply Forall_forall. intros c Hc.
  apply printable_iff. revert c Hc. now apply forallb_forall.
Qed.

Lemma u_String a s : u (String a s) = N_of_ascii a :: u s.
Proof. reflexivity. Qed.

Lemma printable_digits d : Forall printable (u (NilEmpty.string_of_uint d)).
Proof.
  induction d; cbn [NilEmpty.string_of_uint]; [constructor | ..];
    rewrite u_String; (constructor; [now apply printable_iff | assumption]).
Qed.

Lemma printable_encode_int n : Forall printable (encode_int n).
Proof.
  assert (Hz : forall d, Forall printable (u (NilZero.string_of_uint d))).
  { intros d. destruct d; try apply printable_digits.
    now apply printable_literal. }
  unfold encode_int. destruct (Z.to_int n) as [d | d];
    cbn [NilZero.string_of_int]; [apply Hz |].
  rewrite u_String. constructor; [now apply printable_iff | apply Hz].
Qed.

Lemma land_15 n : N.land n 15 < 16.
Proof.
  change 15 with (N.ones 4). rewrite N.land_ones.
  apply N.mod_lt. discriminate.
Qed.

Lemma printable_hex_digit d : d < 16 -> printable (hex_digit d).
Proof.
  intros H. unfold hex_digit, printable.
  destruct (N.ltb_spec d 10); lia.
Qed.

Lemma printable_hex4 n : Forall printable (hex4 n).
Proof.
  unfold hex4. repeat constructor; apply printable_hex_digit, land_15.
Qed.

Lemma printable_escape_char c : Forall printable (escape_char c).
Proof.
  assert (Hu : forall n, Forall printable (backslash :: 117 :: hex4 n)).
  { intros n. apply Forall_cons; [now apply printable_iff |].
    apply Forall_cons; [now apply printable_iff | apply printable_hex4]. }
  assert (H2 : forall a,
             printableb a = true -> Forall printable [backslash; a]).
  { intros a Ha. apply Forall_cons; [now apply printable_iff |].
    apply Forall_cons; [now apply printable_iff | apply Forall_nil]. }
  unfold escape_char.
  repeat match goal with
         | |- context [if ?b then _ else _] => destruct b eqn:?
         end;
    try (now apply H2); try apply Hu.
  - apply Forall_cons; [now apply printable_iff | apply Forall_nil].
  - apply Forall_app. split; apply Hu.
Qed.

Lemma printable_encode_string s : Forall printable (encode_string s).
Proof.
  unfold encode_string. constructor; [unfold printable, dquote; lia |].
  apply Forall_app. split.
  - induction s as [|c s IH]; cbn; [constructor |].
    apply Forall_app. split; [apply printable_escape_char | exact IH].
  - repeat constructor; unfold printable, dquote; lia.
Qed.

Lemma json_dumps_list items :
  json_dumps (JList items) =
    u "[" ++
    match items with
    | [] => []
    | x :: rest =>
        json_dumps x ++ flat_map (fun y => u ", " ++ json_dumps y) rest
    end ++ u "]".
Proof.
  cbn [json_dumps]. f_equal. f_equal.
  destruct items as [|x rest]; [reflexivity |].
  revert x. induction rest as [|y rest IH]; intros x.
  - cbn. now rewrite app_nil_r.
  - rewrite IH. cbn [flat_map]. now rewrite <- !app_assoc.
Qed.

Lemma json_dumps_dict entries :
  json_dumps (JDict entries) =
    u "{" ++
    match entries with
    | [] => []
    | kv :: rest =>
        dumps_member kv ++ flat_map (fun kv' => u ", " ++ dumps_member kv') rest
    end ++ u "}".
Proof.
  cbn [json_dumps]. f_equal. f_equal.
  destruct entries as [|kv rest]; [reflexivity |].
  revert kv. induction rest as [|kv' rest IH]; intros [k x].
  - cbn. unfold dumps_member. cbn [fst snd]. now rewrite app_nil_r.
  - rewrite IH. cbn [flat_map]. unfold dumps_member. cbn [fst snd].
    now rewrite <- !app_assoc.
Qed.

Lemma printable_flat_map {A} (f : A -> pystr) l :
  Forall (fun x => Forall printable (f x)) l ->
  Forall printable (flat_map f l).
Proof.
  induction 1; cbn; [constructor | apply Forall_app; now split].
Qed.

Lemma printable_json_dumps v : Forall printable (json_dumps v).
Proof.
  induction v using json_nested_ind.
  - now apply printable_literal.
  - destruct b; now apply printable_literal.
  - apply printable_encode_int.
  - apply printable_encode_string.
  - rewrite json_dumps_list.
    apply Forall_app. split; [now apply printable_literal |].
    apply Forall_app. split; [| now apply printable_literal].
    destruct H as [|x rest Hx Hrest]; [constructor |].
    apply Forall_app. split; [exact Hx |].
    apply printable_flat_map. eapply Forall_impl; [| exact Hrest].
    intros y Hy. apply Forall_app. split; [now apply printable_literal | exact Hy].
  - rewrite json_dumps_dict.
    assert (Hm : forall kv : pystr * json,
               Forall printable (json_dumps (snd kv)) ->
               Forall printable (dumps_member kv)).
    { intros kv Hkv. unfold dumps_member.
      apply Forall_app. split; [apply printable_encode_string |].
      apply Forall_app. split; [now apply printable_literal | exact Hkv]. }
    apply Forall_app. split; [now apply printable_literal |].
    apply Forall_app. split; [| now apply printable_literal].
    destruct H as [|kv rest Hkv Hrest]; [constructor |].
    apply Forall_app. split; [now apply Hm |].
    apply printable_flat_map. eapply Forall_impl; [| exact Hrest].
    intros kv' Hkv'. apply Forall_app.
    split; [now apply printable_literal | now apply Hm].
Qed.

Lemma count_occ_printable (l : pystr) c :
  Forall printable l -> ~ printable c -> count_occ N.eq_dec l c = 0%nat.
Proof.
  intros Hl Hc. apply count_occ_not_In. intros Hin.
  apply Hc. rewrite Forall_forall in Hl. now apply Hl.
Qed.

(** X1. An SSE frame is ["data: "], a payload of printable ASCII
    characters only, and two line feeds: whatever the data, the frame holds
    exactly two line feeds, at its end, and no carriage return, so a frame
    is one [data:] line and a blank line. *)
Theorem frame_is_one_line data :
  exists payload,
    serialize_sse_event data = u "data: " ++ payload ++ [10; 10]
    /\ Forall printable payload
    /\ count_occ N.eq_dec (serialize_sse_event data) 10 = 2%nat
    /\ count_occ N.eq_dec (serialize_sse_event data) 13 = 0%nat.
Proof.
  exists (json_dumps (JDict data)).
  pose proof (printable_json_dumps (JDict data)) as Hp.
  split; [reflexivity |]. split; [exact Hp |].
  unfold serialize_sse_event. rewrite !count_occ_app.
  rewrite !(count_occ_printable (json_dumps (JDict data)));
    try exact Hp; try (unfold printable; lia).
  split; reflexivity.
Qed.

(** ** More on the stream loop *)

(** X2. A run event always makes the loop yield exactly one frame, of
    type ["thread_run"], without any call to the world.  Its content is
    [ThreadRun status: <status>, thread ID: <id>], the status being written
    as the f-string prints it; the run's last error is appended, after
    [", error: "], exactly when the value of the status equals ["failed"]. *)
Theorem thread_run_frame w run t :
  let base :=
    u "ThreadRun status: " ++ run_status_text run
      ++ u ", thread ID: " ++ run_thread_id run in
  exists content,
    consume w [ThreadRunUpdate run] t =
      ((None,
        [serialize_sse_event
           [(u "content", JStr content); (u "type", JStr (u "thread_run"))]]),
       t)
    /\ (run_status run = u "failed" ->
        content = base ++ u ", error: " ++ run_last_error run)
    /\ (run_status run <> u "failed" -> content = base).
Proof.
  intros base. cbn [consume process_event]. unfold on_thread_run, ret.
  fold base. eexists. split; [reflexivity |]. split; intros H.
  - rewrite (proj2 (pystr_eqb_eq _ _) H). unfold base.
    now rewrite <- !app_assoc.
  - now rewrite (proj2 (pystr_eqb_neq _ _) H).
Qed.

Lemma thread_run_frame_witness :
  let failed :=
    {| run_status := u "failed"; run_status_text := u "RunStatus.FAILED";
       run_thread_id := u "thread_7"; run_last_error := u "rate limit" |} in
  let queued :=
    {| run_status := u "queued"; run_status_text := u "RunStatus.QUEUED";
       run_thread_id := u "thread_7"; run_last_error := u "None" |} in
  (exists content,
     consume (Fixture.world None) [ThreadRunUpdate failed] [] =
       ((None,
         [serialize_sse_event
            [(u "content", JStr content); (u "type", JStr (u "thread_run"))]]),
        [])
     /\ content =
          u "ThreadRun status: RunStatus.FAILED, thread ID: thread_7, error: rate limit")
  /\
  (exists content,
     consume (Fixture.world None) [ThreadRunUpdate queued] [] =
       ((None,
         [serialize_sse_event
            [(u "content", JStr content); (u "type", JStr (u "thread_run"))]]),
        [])
     /\ content = u "ThreadRun status: RunStatus.QUEUED, thread ID: thread_7").
Proof.
  intros failed queued. split.
  - destruct (thread_run_frame (Fixture.world None) failed [])
      as (content & Hframe & Hfailed & _).
    exists content. split; [exact Hframe |]. now rewrite Hfailed.
  - destruct (thread_run_frame (Fixture.world None) queued [])
      as (content & Hframe & _ & Hother).
    exists content. split; [exact Hframe |]. rewrite Hother; [reflexivity |].
    discriminate.
Defined.

Lemma process_event_forget_error w ev t :
  process_event w (forget_error ev) t = process_event w ev t.
Proof. destruct ev; reflexivity. Qed.

(** X3. The client cannot tell a stream-level error event from the
    completion of the stream: with every error event replaced by a completion
    event, the loop yields the same frames and makes the same calls.  The
    data of the error event never reaches the client. *)
Theorem error_events_look_like_completion w events :
  forall t, consume w (map forget_error events) t = consume w events t.
Proof.
  induction events as [|ev rest IH]; intros t; [reflexivity |].
  cbn [map consume]. rewrite process_event_forget_error.
  destruct (process_event w ev t) as [[r | rv] t']; [reflexivity |].
  now rewrite IH.
Qed.

Lemma consume_skip w ev rest t :
  process_event w ev t = (inr None, t) ->
  consume w (ev :: rest) t = consume w rest t.
Proof.
  intros H. cbn [consume]. rewrite H. cbn [yielded app].
  now destruct (consume w rest t) as [[r frames] t'].
Qed.

Lemma process_event_invisible w ev t :
  visible ev = false -> process_event w ev t = (inr None, t).
Proof.
  destruct ev as [delta | message | run | data | |]; cbn [visible];
    try discriminate; intros H; [| reflexivity].
  apply on_thread_message_not_completed. now apply pystr_eqb_neq.
Qed.

(** X4. Events of the kinds without a handler method of their own, and
    thread messages whose status is not ["completed"], leave no mark: with
    all of them removed from the stream, the loop yields the same frames
    and makes the same calls. *)
Theorem invisible_events_leave_no_mark w events :
  forall t, consume w (filter visible events) t = consume w events t.
Proof.
  induction events as [|ev rest IH]; intros t; [reflexivity |].
  cbn [filter]. destruct (visible ev) eqn:Hv.
  - cbn [consume].
    destruct (process_event w ev t) as [[r | rv] t']; [reflexivity |].
    now rewrite IH.
  - rewrite (consume_skip _ _ _ _ (process_event_invisible _ _ _ Hv)).
    apply IH.
Qed.

Lemma yielded_at_most_one rv : (List.length (yielded rv) <= 1)%nat.
Proof. destruct rv as [s|]; cbn; [destruct (str_truthy s) |]; cbn; lia. Qed.

Lemma process_event_emits w ev t :
  always_emits ev = true ->
  exists frame, process_event w ev t = (inr (Some frame), t)
                /\ yielded (Some frame) = [frame].
Proof.
  destruct ev as [delta | message | run | data | |]; cbn [always_emits];
    try discriminate; intros _; eexists; split; reflexivity.
Qed.

Lemma consume_length w events :
  forall t,
    (List.length (snd (fst (consume w events t))) <= List.length events)%nat.
Proof.
  induction events as [|ev rest IH]; intros t; [cbn; lia |].
  destruct (process_event_spec w ev t) as (rv & calls & Hev & _).
  rewrite (consume_cons _ _ _ _ _ _ Hev). specialize (IH (t ++ calls)).
  destruct (consume w rest (t ++ calls)) as [[r frames] t'].
  cbn [fst snd] in *. rewrite List.length_app. cbn [List.length].
  pose proof (yielded_at_most_one rv). lia.
Qed.

(** X5. Every event makes the loop yield at most one frame, and a
    partial message, a run event, a stream-level error and the completion
    each yield exactly one: the number of frames lies between the number of
    those events and the number of visible events. *)
Theorem frame_count_bounds w events :
  forall t,
    let frames := snd (fst (consume w events t)) in
    (List.length (filter always_emits events) <= List.length frames
     /\ List.length frames <= List.length (filter visible events))%nat.
Proof.
  induction events as [|ev rest IH]; intros t; [cbn; lia |].
  cbv zeta. cbn [filter].
  destruct (visible ev) eqn:Hv.
  - destruct (process_event_spec w ev t) as (rv & calls & Hev & _).
    rewrite (consume_cons _ _ _ _ _ _ Hev).
    specialize (IH (t ++ calls)). cbv zeta in IH.
    destruct (consume w rest (t ++ calls)) as [[r frames] t'].
    cbn [fst snd] in *. rewrite List.length_app. cbn [List.length].
    pose proof (yielded_at_most_one rv) as Hle.
    destruct (always_emits ev) eqn:Ha; cbn [List.length]; [| lia].
    destruct (process_event_emits w ev t Ha) as (frame & Hf & Hy).
    rewrite Hf in Hev. injection Hev as <- _. rewrite Hy. cbn [List.length]. lia.
  - assert (Ha : always_emits ev = false) by (destruct ev; easy).
    rewrite Ha, (consume_skip _ _ _ _ (process_event_invisible _ _ _ Hv)).
    apply IH.
Qed.

(** X6. Streaming is incremental: the frames yielded for the first
    events of a stream do not depend on the events that follow; the frames
    of the whole stream are those frames followed by the frames of the rest,
    consumed from where the first events left the world. *)
Theorem frames_of_a_prefix w events more t :
  exists frames1 t1 frames2 t2,
    consume w events t = ((None, frames1), t1)
    /\ consume w more t1 = ((None, frames2), t2)
    /\ consume w (events ++ more) t = ((None, frames1 ++ frames2), t2).
Proof.
  destruct (consume_spec w events t) as (frames1 & calls1 & H1 & _).
  destruct (consume_spec w more (t ++ calls1)) as (frames2 & calls2 & H2 & _).
  exists frames1, (t ++ calls1), frames2, ((t ++ calls1) ++ calls2).
  split; [exact H1 |]. split; [exact H2 |].
  now rewrite (consume_app _ _ _ _ _ _ H1), H2.
Qed.

(** X7. No handler method lets an exception out, whatever the events
    and whatever the service answers to the file lookups: the loop always
    reaches the end of the events, so only the creation of the stream or its
    iteration can end a stream with an error frame.  A stream that is created
    and iterated without an exception yields no error frame, and at most one
    frame per event. *)
Theorem only_the_stream_can_fail w thread_id agent_id t stream :
  agents_create_stream w t thread_id agent_id = inr stream ->
  fst (fst (consume w (stream_events stream)
                    (t ++ [CreateStream thread_id agent_id]))) = None
  /\ (stream_failure stream = None ->
      let frames := fst (get_result w thread_id agent_id t) in
      Forall (fun frame => ~ is_error_event frame) frames
      /\ (List.length frames <= List.length (stream_events stream))%nat).
Proof.
  intros Hs.
  destruct (get_result_cases w thread_id agent_id t)
    as (frames & calls & Hf & _ & Hg).
  rewrite Hs in Hg. destruct Hg as [Hc Hg]. split; [now rewrite Hc |].
  intros Hnone. cbv zeta. rewrite Hg, Hnone. cbn [fst]. split.
  - eapply Forall_impl; [| exact Hf]. apply handler_frame_not_error.
  - pose proof (consume_length w (stream_events stream)
                  (t ++ [CreateStream thread_id agent_id])) as Hb.
    rewrite Hc in Hb. exact Hb.
Qed.

Lemma only_the_stream_can_fail_witness :
  fst (fst (consume (Fixture.world None) (stream_events Fixture.run)
                    ([] ++ [CreateStream (u "thread_7") (u "asst_1")]))) = None
  /\ Forall (fun frame => ~ is_error_event frame)
            (fst (get_result (Fixture.world None) (u "thread_7") (u "asst_1") []))
  /\ (List.length
        (fst (get_result (Fixture.world None) (u "thread_7") (u "asst_1") []))
      <= List.length (stream_events Fixture.run))%nat.
Proof.
  destruct (only_the_stream_can_fail
              (Fixture.world None) (u "thread_7") (u "asst_1") [] Fixture.run
              eq_refl) as [Hloop Hframes].
  split; [exact Hloop | exact (Hframes eq_refl)].
Defined.

(** ** More on chat *)

(** X8. When the call about the thread raises [e], the request is
    answered 400 with the detail ["Thread error: " + str(e)], and that call
    is the only one made: the body is not looked at (an invalid body goes
    unreported) and no message is posted. *)
Theorem thread_failure_is_400 w request agent t e :
  thread_answer w request agent t = inl e ->
  chat w request agent t =
    (inl (HTTPException 400 (u "Thread error: " ++ exn_str e)),
     t ++ [thread_call request agent]).
Proof. intros H. rewrite chat_cases. cbv zeta. now rewrite H. Qed.

Lemma thread_failure_is_400_witness :
  chat Fixture.world_no_thread (Fixture.post [] Fixture.bad_json)
       Fixture.agent [] =
    (inl (HTTPException 400 (u "Thread error: service unavailable")),
     [CreateThread]).
Proof.
  exact (thread_failure_is_400 Fixture.world_no_thread
           (Fixture.post [] Fixture.bad_json) Fixture.agent []
           Fixture.unavailable eq_refl).
Defined.

(** X9. When the thread is there and the body gives a message but
    posting it raises [e], the request is answered 500 with the detail
    ["Message creation error: " + str(e)] after exactly two calls, and the
    response sets no cookie: a thread created for the request is not made
    known to the client. *)
Theorem message_failure_is_500 w request agent t thread message e :
  thread_answer w request agent t = inr thread ->
  user_message_of request = inr message ->
  agents_create_message w (t ++ [thread_call request agent])
                        (thread_id_of thread) (u "user") message = inl e ->
  chat w request agent t =
    (inl (HTTPException 500 (u "Message creation error: " ++ exn_str e)),
     t ++ [thread_call request agent;
           CreateMessage (thread_id_of thread) (u "user") message])
  /\ cookies_received (fst (chat w request agent t)) = [].
Proof.
  intros Ht Hm He. rewrite chat_cases. cbv zeta. rewrite Ht, Hm, He.
  rewrite <- app_assoc. split; reflexivity.
Qed.

Lemma message_failure_is_500_witness :
  chat Fixture.world_no_message (Fixture.post [] Fixture.hello)
       Fixture.agent [] =
    (inl (HTTPException 500 (u "Message creation error: service unavailable")),
     [CreateThread; CreateMessage (u "thread_7") (u "user") (JStr (u "hello"))]).
Proof.
  exact (proj1 (message_failure_is_500 Fixture.world_no_message
                  (Fixture.post [] Fixture.hello) Fixture.agent []
                  {| thread_id_of := u "thread_7" |} (JStr (u "hello"))
                  Fixture.unavailable eq_refl eq_refl eq_refl)).
Defined.

(** X10. The status of a chat is 200, 400 or 500.  It is 200 exactly
    when the call about the thread answers, the body gives a message and the
    message is posted; it is 500 exactly when the first two succeed and the
    post raises; otherwise it is 400. *)
Theorem chat_statuses w request agent t :
  let status := http_status (fst (chat w request agent t)) in
  let posted thread message :=
    agents_create_message w (t ++ [thread_call request agent])
                          (thread_id_of thread) (u "user") message in
  (status = 200 \/ status = 400 \/ status = 500)%Z
  /\ (status = 200%Z <->
      exists thread message id,
        thread_answer w request agent t = inr thread
        /\ user_message_of request = inr message
        /\ posted thread message = inr id)
  /\ (status = 500%Z <->
      exists thread message e,
        thread_answer w request agent t = inr thread
        /\ user_message_of request = inr message
        /\ posted thread message = inl e).
Proof.
  cbv zeta. rewrite chat_cases. cbv zeta.
  destruct (thread_answer w request agent t) as [e | thread];
    [| destruct (user_message_of request) as [e | message];
       [| destruct (agents_create_message
                      w (t ++ [thread_call request agent])
                      (thread_id_of thread) (u "user") message)
            as [e | id] eqn:Hp]];
    cbn [fst http_status];
    (split; [auto |]); split; split; try discriminate;
    try (intros (th & m & x & H1 & H2 & H3); first [reflexivity | congruence]);
    intros _; do 3 eexists; repeat split; eassumption.
Qed.

(** X11. Handling a chat never opens the stream: none of the calls made
    by [chat] creates a stream.  The stream is created when the body of the
    returned response is run, as the first call of that run, on the thread
    and the agent whose identifiers the cookies carry; every later call of
    the run is a file lookup. *)
Theorem stream_is_opened_by_the_body w request agent t :
  (exists calls,
     snd (chat w request agent t) = t ++ calls
     /\ Forall (fun c => ~ is_create_stream c /\ ~ is_lookup c) calls)
  /\ (forall resp,
        fst (chat w request agent t) = inr resp ->
        exists thread_id body,
          response_body resp = Streaming body
          /\ set_cookies resp =
               [(u "thread_id", thread_id); (u "agent_id", agent_id_of agent)]
          /\ forall t2, exists lookups,
               snd (body t2) =
                 t2 ++ CreateStream thread_id (agent_id_of agent) :: lookups
               /\ Forall is_lookup lookups).
Proof.
  assert (Hnot : forall c, is_thread_call c \/ (exists a b m, c = CreateMessage a b m) ->
                           ~ is_create_stream c /\ ~ is_lookup c).
  { intros c [[-> | [id ->]] | (a & b & m & ->)]; split;
      try (intros (x & y & H); discriminate H); intros (x & H); discriminate H. }
  assert (Htc : is_thread_call (thread_call request agent)).
  { unfold is_thread_call, thread_call.
    destruct (reuses_thread request agent); [right; eexists | left]; reflexivity. }
  rewrite chat_cases. cbv zeta.
  destruct (thread_answer w request agent t) as [e | thread].
  { split; [| discriminate]. eexists. split; [reflexivity |].
    repeat constructor; apply Hnot; now left. }
  destruct (user_message_of request) as [e | message].
  { split; [| discriminate]. eexists. split; [reflexivity |].
    repeat constructor; apply Hnot; now left. }
  assert (Hcalls : Forall (fun c => ~ is_create_stream c /\ ~ is_lookup c)
                     [thread_call request agent;
                      CreateMessage (thread_id_of thread) (u "user") message]).
  { constructor; [apply Hnot; now left |].
    constructor; [apply Hnot; right; now do 3 eexists | constructor]. }
  destruct (agents_create_message _ _ _ _ _) as [e | id]; cbn [fst snd].
  { split; [| discriminate]. eexists. rewrite <- app_assoc. now split. }
  split; [eexists; rewrite <- app_assoc; now split |].
  intros resp [= <-].
  exists (thread_id_of thread),
         (get_result w (thread_id_of thread) (agent_id_of agent)).
  split; [reflexivity |]. split; [reflexivity |]. intros t2.
  destruct (get_result_cases w (thread_id_of thread) (agent_id_of agent) t2)
    as (frames & calls & _ & Hl & Hg).
  destruct (agents_create_stream w t2 (thread_id_of thread) (agent_id_of agent)).
  - exists []. rewrite Hg. split; [reflexivity | constructor].
  - exists calls. destruct Hg as [_ ->]. cbn [snd].
    rewrite <- app_assoc. now split.
Qed.

(** X12. The value of [message] is posted as it is, whatever its JSON
    type: the handler does not check that it is a string.  For a body that
    is an object with a [message], the second call of the handler posts that
    very value to the thread, with the role ["user"]. *)
Theorem message_is_posted_unchanged w request agent t d v thread :
  request_json request = inr (JDict d) ->
  dict_get d (u "message") = Some v ->
  thread_answer w request agent t = inr thread ->
  snd (chat w request agent t) =
    t ++ [thread_call request agent;
          CreateMessage (thread_id_of thread) (u "user") v].
Proof.
  intros Hjson Hd Ht. rewrite chat_cases. cbv zeta.
  unfold user_message_of. rewrite Ht, Hjson. cbn [py_get]. rewrite Hd.
  destruct (agents_create_message _ _ _ _ _); cbn [snd];
    now rewrite <- app_assoc.
Qed.

Lemma message_is_posted_unchanged_witness :
  let body := [(u "message", JList [JInt 5; JNull])] in
  snd (chat (Fixture.world None) (Fixture.post [] (inr (JDict body)))
            Fixture.agent []) =
    [] ++ [CreateThread;
           CreateMessage (u "thread_7") (u "user") (JList [JInt 5; JNull])].
Proof.
  intros body.
  exact (message_is_posted_unchanged
           (Fixture.world None) (Fixture.post [] (inr (JDict body)))
           Fixture.agent [] body (JList [JInt 5; JNull])
           {| thread_id_of := u "thread_7" |} eq_refl eq_refl eq_refl).
Defined.

(** X13. A body that is valid JSON but not an object (a list, a string,
    a number, a boolean, null) is refused like invalid JSON: once the call
    about the thread has answered, the request is answered 400 with a detail
    that starts with ["Invalid JSON: "] and names the missing [get], and no
    message is posted. *)
Theorem body_must_be_an_object w request agent t v thread :
  request_json request = inr v ->
  is_dict v = false ->
  thread_answer w request agent t = inr thread ->
  chat w request agent t =
    (inl (HTTPException 400
            (u "Invalid JSON: " ++ quoted (type_name v)
               ++ u " object has no attribute 'get'")),
     t ++ [thread_call request agent]).
Proof.
  intros Hjson Hv Ht. rewrite chat_cases. cbv zeta.
  unfold user_message_of. rewrite Ht, Hjson.
  destruct v; try discriminate Hv; reflexivity.
Qed.

Lemma body_must_be_an_object_witness :
  chat (Fixture.world None) (Fixture.post [] (inr (JStr (u "hello"))))
       Fixture.agent [] =
    (inl (HTTPException 400
            (u "Invalid JSON: 'str' object has no attribute 'get'")),
     [CreateThread]).
Proof.
  exact (body_must_be_an_object
           (Fixture.world None) (Fixture.post [] (inr (JStr (u "hello"))))
           Fixture.agent [] (JStr (u "hello"))
           {| thread_id_of := u "thread_7" |} eq_refl eq_refl eq_refl).
Defined.

Lemma dict_get_session_cookies (thread_id agent_id : pystr) :
  let jar := [(u "thread_id", thread_id); (u "agent_id", agent_id)] in
  dict_get jar (u "thread_id") = Some thread_id
  /\ dict_get jar (u "agent_id") = Some agent_id.
Proof. split; reflexivity. Qed.

(** X14. The cookies of a response resume the conversation: a next
    request that sends back the cookies set by the response of a chat is
    handled on the same thread (its first call retrieves the thread of the
    first chat and no thread is created), provided the identifier of that
    thread is not empty.  With an empty identifier the next request creates
    a new thread. *)
Theorem cookies_resume_the_thread w request agent t resp next :
  fst (chat w request agent t) = inr resp ->
  cookies next = set_cookies resp ->
  exists thread,
    thread_answer w request agent t = inr thread
    /\ (thread_id_of thread <> [] ->
        thread_call next agent = GetThread (thread_id_of thread)
        /\ forall w' t',
             exists calls,
               snd (chat w' next agent t') =
                 t' ++ GetThread (thread_id_of thread) :: calls
               /\ Forall (fun c => ~ is_thread_call c) calls)
    /\ (thread_id_of thread = [] -> thread_call next agent = CreateThread).
Proof.
  rewrite chat_cases. cbv zeta.
  destruct (thread_answer w request agent t) as [e | thread]; [discriminate |].
  destruct (user_message_of request) as [e | message]; [discriminate |].
  destruct (agents_create_message _ _ _ _ _); [discriminate |].
  intros [= <-] Hjar. exists thread. split; [reflexivity |].
  cbn [set_cookies chat_response set_cookie StreamingResponse app] in Hjar.
  destruct (dict_get_session_cookies (thread_id_of thread) (agent_id_of agent))
    as [Hth Hag].
  cbv zeta in Hth, Hag. rewrite <- Hjar in Hth, Hag.
  split.
  - intros Hne.
    assert (Hmatch : cookies_match next agent (thread_id_of thread))
      by (repeat split; assumption).
    split; [now apply thread_call_reused |].
    intros w' t'. rewrite <- (thread_call_reused _ _ _ Hmatch).
    apply chat_calls.
  - intros Hempty. apply thread_call_created.
    intros (T & HT & Hne & _). rewrite Hth in HT. congruence.
Qed.

Lemma cookies_resume_the_thread_witness :
  let w := Fixture.world None in
  let next :=
    Fixture.post [(u "thread_id", u "thread_7"); (u "agent_id", u "asst_1")]
                 Fixture.hello in
  thread_call next Fixture.agent = GetThread (u "thread_7").
Proof.
  intros w next.
  destruct (cookies_resume_the_thread
              w (Fixture.post [] Fixture.hello) Fixture.agent []
              (chat_response w (u "thread_7") (u "asst_1")) next
              eq_refl eq_refl) as (thread & Hthread & Hresume & _).
  injection Hthread as <-. apply Hresume. discriminate.
Defined.

(** ** More on fetching a document *)

(** [fetch_document], case by case. *)
Lemma fetch_document_cases w request t :
  fetch_document w request t =
    let file_name := dict_get (query_params request) (u "file_name") in
    let t1 := t ++ [EnvironGet file_map_variable] in
    if truthy file_name then
      match configured_files w t with
      | inl r => (inl r, t1)
      | inr (JDict d) =>
          match dict_get d (or_empty file_name) with
          | None => (inl (HTTPException 404 (u "File not found")), t1)
          | Some entry =>
              match py_getitem entry (u "path") with
              | inl e =>
                  (inr (JSONResponse (JDict [(u "error", JStr (exn_str e))]) 500),
                   t1)
              | inr path =>
                  match open_read w t1 path with
                  | inl e =>
                      (inr (JSONResponse
                              (JDict [(u "error", JStr (exn_str e))]) 500),
                       t1 ++ [OpenRead path])
                  | inr data => (inr (PlainTextResponse data), t1 ++ [OpenRead path])
                  end
              end
          end
      | inr v => (inl (Error (no_attribute v "keys")), t1)
      end
    else (inl (HTTPException 400 (u "file_name is required")), t).
Proof.
  unfold fetch_document. cbv zeta.
  destruct (truthy (dict_get (query_params request) (u "file_name")));
    cbn [negb]; [| reflexivity].
  unfold bind at 1, environ_get. cbv beta iota zeta.
  fold file_map_variable.
  unfold bind at 1, try_except_only, lift, configured_files.
  destruct (json_loads w _) as [e | v].
  - destruct (is_JSONDecodeError (Error e)); [| reflexivity].
    reflexivity.
  - destruct v as [| b | n | s | items | d]; try reflexivity.
    destruct (dict_get d _) as [entry |]; [| reflexivity].
    unfold try_except, bind, lift, read_file, perform.
    destruct (py_getitem entry (u "path")) as [e | path]; [reflexivity |].
    destruct (open_read w _ path); reflexivity.
Qed.

(** X15. A file map that is valid JSON but not an object (a list, a
    string, a number, a boolean, null) is not treated as empty: for every
    non-empty [file_name] the handler raises an [AttributeError] that
    nothing catches, so the request fails with a 500, after the read of the
    environment and without touching the file system. *)
Theorem file_map_must_be_an_object w request t name v :
  dict_get (query_params request) (u "file_name") = Some name ->
  name <> [] ->
  configured_files w t = inr v ->
  is_dict v = false ->
  fetch_document w request t =
    (inl (Error (no_attribute v "keys")),
     t ++ [EnvironGet file_map_variable])
  /\ http_status (fst (fetch_document w request t)) = 500%Z.
Proof.
  intros Hq Hne Hfiles Hv. rewrite fetch_document_cases. cbv zeta.
  rewrite Hq, (truthy_nonempty _ Hne), Hfiles.
  destruct v; try discriminate Hv; split; reflexivity.
Qed.

Lemma file_map_must_be_an_object_witness :
  let w := Fixture.world (Some (u "[]")) in
  let request := Fixture.get [(u "file_name", u "notes.md")] in
  fetch_document w request [] =
    (inl (Error (Exn AttributeError (u "'list' object has no attribute 'keys'"))),
     [EnvironGet file_map_variable])
  /\ http_status (fst (fetch_document w request [])) = 500%Z.
Proof.
  intros w request.
  exact (file_map_must_be_an_object w request [] (u "notes.md") (JList [])
           eq_refl ltac:(discriminate) eq_refl eq_refl).
Defined.

(** X16. The handler opens no path of the client's choosing.  Its calls
    are none (the name is refused), or the read of the environment alone, or
    that read followed by the opening of one path, and then that path is the
    [path] of the entry that the file map holds for the requested name. *)
Theorem only_mapped_paths_are_opened w request t :
  exists calls,
    snd (fetch_document w request t) = t ++ calls
    /\ (calls = []
        \/ calls = [EnvironGet file_map_variable]
        \/ exists name d entry path,
             calls = [EnvironGet file_map_variable; OpenRead path]
             /\ dict_get (query_params request) (u "file_name") = Some name
             /\ configured_files w t = inr (JDict d)
             /\ dict_get d name = Some entry
             /\ py_getitem entry (u "path") = inr path).
Proof.
  rewrite fetch_document_cases. cbv zeta.
  destruct (dict_get (query_params request) (u "file_name")) as [name |];
    [| exists []; rewrite app_nil_r; auto].
  destruct (truthy (Some name)); [| exists []; rewrite app_nil_r; auto].
  cbn [or_empty].
  destruct (configured_files w t) as [r | [| b | n | s | items | d]];
    try (eexists; split; [reflexivity | auto]).
  destruct (dict_get d name) as [entry |] eqn:Hd;
    [| eexists; split; [reflexivity | auto]].
  destruct (py_getitem entry (u "path")) as [e | path] eqn:Hp;
    [eexists; split; [reflexivity | auto] |].
  exists [EnvironGet file_map_variable; OpenRead path]. split.
  - destruct (open_read w _ path); cbn [snd]; now rewrite <- app_assoc.
  - right. right. now exists name, d, entry, path.
Qed.

(** X17. The status of [fetch_document] is 200, 400, 404 or 500, and a
    200 is never given without a file: it is given only for a non-empty
    name that is a key of the file map, and its body is then exactly the
    text that reading the [path] of that entry returned. *)
Theorem fetch_document_statuses w request t :
  let status := http_status (fst (fetch_document w request t)) in
  (status = 200 \/ status = 400 \/ status = 404 \/ status = 500)%Z
  /\ (status = 200%Z ->
      exists name d entry path data,
        dict_get (query_params request) (u "file_name") = Some name
        /\ name <> []
        /\ configured_files w t = inr (JDict d)
        /\ dict_get d name = Some entry
        /\ py_getitem entry (u "path") = inr path
        /\ open_read w (t ++ [EnvironGet file_map_variable]) path = inr data
        /\ fst (fetch_document w request t) = inr (PlainTextResponse data)).
Proof.
  cbv zeta. rewrite fetch_document_cases. cbv zeta.
  destruct (dict_get (query_params request) (u "file_name")) as [name |];
    [| cbn; split; [auto | discriminate]].
  destruct name as [|c name]; [cbn; split; [auto | discriminate] |].
  cbn [truthy str_truthy or_empty].
  destruct (configured_files w t) as [r | [| b | n | s | items | d]] eqn:Hr;
    try (cbn; split; [auto | discriminate]).
  - destruct r as [e | code detail]; cbn [fst http_status];
      [split; [auto | discriminate] |].
    exfalso. revert Hr. unfold configured_files.
    destruct (json_loads w _) as [e |]; [| discriminate].
    destruct (is_JSONDecodeError (Error e)); discriminate.
  - destruct (dict_get d (c :: name)) as [entry |] eqn:Hd;
      [| cbn; split; [auto | discriminate]].
    destruct (py_getitem entry (u "path")) as [e | path] eqn:Hp;
      [cbn; split; [auto | discriminate] |].
    destruct (open_read w _ path) as [e | data] eqn:Hread;
      [cbn; split; [auto | discriminate] |].
    cbn [fst http_status PlainTextResponse status_code]. split; [auto |].
    intros _. exists (c :: name), d, entry, path, data.
    repeat split; try assumption; try reflexivity. discriminate.
Qed.

(** ** More on thread messages *)

Lemma pystr_eqb_refl (s : pystr) : pystr_eqb s s = true.
Proof. now apply pystr_eqb_eq. Qed.

Lemma dict_get_set_same {A} (d : list (pystr * A)) k v :
  dict_get (dict_set d k v) k = Some v.
Proof.
  induction d as [|[k' v'] d IH]; cbn.
  - now rewrite pystr_eqb_refl.
  - destruct (pystr_eqb k k') eqn:Hk; cbn; rewrite Hk; [reflexivity | exact IH].
Qed.

Lemma dict_get_set_other {A} (d : list (pystr * A)) k v k' :
  k' <> k -> dict_get (dict_set d k v) k' = dict_get d k'.
Proof.
  intros Hne. induction d as [|[k0 v0] d IH]; cbn.
  - now rewrite (proj2 (pystr_eqb_neq _ _) Hne).
  - destruct (pystr_eqb k k0) eqn:Hk; cbn.
    + apply pystr_eqb_eq in Hk. subst k0.
      now rewrite (proj2 (pystr_eqb_neq _ _) Hne).
    + destruct (pystr_eqb k' k0); [reflexivity | exact IH].
Qed.

Lemma lookups_succeed_calls w t annotations enriched t' :
  lookups_succeed w t annotations enriched t' ->
  exists calls,
    t' = t ++ calls /\ Forall is_lookup calls
    /\ List.length calls = List.length annotations
    /\ List.length enriched = List.length annotations.
Proof.
  induction 1 as [t | t a rest id f out t' Ha _ IH].
  - exists []. rewrite app_nil_r. repeat split. constructor.
  - destruct IH as (calls & -> & Hl & Hn & Hm).
    exists (GetFile id :: calls). rewrite <- app_assoc. cbn.
    repeat split; try congruence.
    constructor; [now exists id | assumption].
Qed.

(** The loop over the annotations either completes, every lookup having
    succeeded, or stops at the first annotation whose lookup fails. *)
Lemma enrich_inv w annotations :
  forall done t r t',
    enrich w annotations done t = (r, t') ->
    (exists enriched,
       r = inr (done ++ enriched)
       /\ lookups_succeed w t annotations enriched t')
    \/
    (exists before failing after enriched t1 e,
       annotations = before ++ failing :: after
       /\ lookups_succeed w t before enriched t1
       /\ lookup w t1 failing = inl e
       /\ r = inl (Error e)
       /\ (t' = t1 \/ exists file_id, t' = t1 ++ [GetFile file_id])).
Proof.
  induction annotations as [|a rest IH]; intros done t r t' H.
  - injection H as <- <-. left. exists []. rewrite app_nil_r.
    split; [reflexivity | constructor].
  - rewrite enrich_step in H.
    destruct (cited_file_id a) as [e | file_id] eqn:Hc.
    + injection H as <- <-. right.
      exists [], a, rest, [], t, e.
      split; [reflexivity |]. split; [constructor |].
      split; [unfold lookup; now rewrite Hc |].
      split; [reflexivity | now left].
    + destruct (agents_get_file w t file_id) as [e | file] eqn:Hf.
      * injection H as <- <-. right.
        exists [], a, rest, [], t, e.
        split; [reflexivity |]. split; [constructor |].
        split; [unfold lookup; now rewrite Hc, Hf |].
        split; [reflexivity | right; now exists file_id].
      * assert (Ha : lookup w t a = inr (file_id, file))
          by (unfold lookup; now rewrite Hc, Hf).
        apply IH in H.
        destruct H as [(enriched & -> & Hs)
                      | (before & failing & after & enriched & t1 & e
                         & -> & Hs & Hl & -> & Ht)].
        -- left. exists (with_file_name a file :: enriched).
           rewrite <- app_assoc. split; [reflexivity |].
           eapply lookups_step; eassumption.
        -- right.
           exists (a :: before), failing, after,
                  (with_file_name a file :: enriched), t1, e.
           split; [reflexivity |].
           split; [eapply lookups_step; eassumption |].
           split; [assumption |]. split; [reflexivity | assumption].
Qed.

(** What the lookups make of the annotations. *)
Lemma lookups_succeed_enriched w t annotations enriched t' :
  lookups_succeed w t annotations enriched t' ->
  Forall2
    (fun annotation e =>
       exists d file_id file,
         e = JDict d
         /\ cited_file_id annotation = inr file_id
         /\ (exists tc, agents_get_file w tc file_id = inr file)
         /\ dict_get d (u "file_name") = Some (JStr (filename file))
         /\ forall k, k <> u "file_name" -> dict_get d k = dict_get annotation k)
    annotations enriched.
Proof.
  induction 1 as [t | t a rest id f out t' Ha _ IH]; constructor;
    [| exact IH].
  unfold lookup in Ha.
  destruct (cited_file_id a) as [e | file_id]; [discriminate |].
  destruct (agents_get_file w t file_id) as [e | file] eqn:Hf; [discriminate |].
  injection Ha as <- <-.
  exists (dict_set a (u "file_name") (JStr (filename file))), file_id, file.
  repeat split.
  - now exists t.
  - apply dict_get_set_same.
  - intros k Hk. now apply dict_get_set_other.
Qed.

(** X18. Whenever a thread message makes the loop yield a frame, the
    message is completed and the frame is the ["completed_message"] frame of
    its first text part, with as many annotations as the message cites, in
    the same order; each is the cited annotation with [file_name] set to the
    name the service gave for the cited file, every other field unchanged. *)
Theorem emitted_annotations w message t frame t' :
  consume w [ThreadMessagePosted message] t = ((None, [frame]), t') ->
  message_status message = u "completed"
  /\ exists text more enriched,
       text_messages message = text :: more
       /\ frame = completed_message_frame text enriched
       /\ Forall2
            (fun annotation e =>
               exists d file_id file,
                 e = JDict d
                 /\ cited_file_id annotation = inr file_id
                 /\ (exists tc, agents_get_file w tc file_id = inr file)
                 /\ dict_get d (u "file_name") = Some (JStr (filename file))
                 /\ forall k, k <> u "file_name" ->
                              dict_get d k = dict_get annotation k)
            (file_citation_annotations message) enriched.
Proof.
  cbn [consume process_event]. unfold on_thread_message, try_except.
  destruct (pystr_eqb (message_status message) (u "completed")) eqn:Hc;
    cbn [negb]; [| discriminate].
  apply pystr_eqb_eq in Hc. unfold bind at 1.
  destruct (enrich w (file_citation_annotations message) [] t)
    as [[e | annotations] t1] eqn:He; [discriminate |].
  unfold bind, lift, ret.
  destruct (text_messages message) as [|text more]; [discriminate |].
  cbn [first yielded str_truthy app]. intros [= <- <-].
  split; [exact Hc |]. exists text, more, annotations.
  split; [reflexivity |]. split; [reflexivity |].
  destruct (enrich_inv _ _ _ _ _ _ He)
    as [(enriched & [= ->] & Hs) | (? & ? & ? & ? & ? & ? & _ & _ & _ & H & _)];
    [| discriminate H].
  eapply lookups_succeed_enriched. exact Hs.
Qed.

Lemma emitted_annotations_witness :
  let message := Fixture.cited_message (u "completed") in
  exists enriched,
    Forall2
      (fun annotation e =>
         exists d file_id file,
           e = JDict d
           /\ cited_file_id annotation = inr file_id
           /\ (exists tc, agents_get_file (Fixture.world None) tc file_id
                          = inr file)
           /\ dict_get d (u "file_name") = Some (JStr (filename file))
           /\ forall k, k <> u "file_name" ->
                        dict_get d k = dict_get annotation k)
      (file_citation_annotations message) enriched.
Proof.
  intros message.
  destruct (emitted_annotations (Fixture.world None) message [] _ _ eq_refl)
    as (_ & text & more & enriched & _ & _ & H).
  exists enriched. exact H.
Defined.

(** X19. A thread message makes at most one file lookup per annotation,
    and these are its only calls to the world.  A message that is not
    completed makes none; a message for which a frame is yielded has made
    exactly one per annotation; and when a lookup fails, the calls made are
    at most the lookups for the annotations up to and including the first
    whose lookup fails: none is made for the annotations after it. *)
Theorem lookups_of_a_message w message t :
  exists rv calls,
    on_thread_message w message t = (inr rv, t ++ calls)
    /\ Forall is_lookup calls
    /\ (List.length calls
        <= List.length (file_citation_annotations message))%nat
    /\ (message_status message <> u "completed" -> calls = [])
    /\ (rv <> None ->
        List.length calls = List.length (file_citation_annotations message))
    /\ (message_status message = u "completed" ->
        lookup_fails w t (file_citation_annotations message) ->
        exists before failing after enriched t1 e,
          file_citation_annotations message = before ++ failing :: after
          /\ lookups_succeed w t before enriched t1
          /\ lookup w t1 failing = inl e
          /\ (List.length calls <= S (List.length before))%nat).
Proof.
  unfold on_thread_message, try_except.
  destruct (pystr_eqb (message_status message) (u "completed")) eqn:Hc;
    cbn [negb].
  2:{ exists None, []. rewrite app_nil_r. cbn [List.length].
      split; [reflexivity |]. split; [constructor |]. split; [lia |].
      split; [reflexivity |]. split; [congruence |].
      intros H. apply pystr_eqb_neq in Hc. congruence. }
  apply pystr_eqb_eq in Hc. unfold bind at 1.
  destruct (enrich w (file_citation_annotations message) [] t)
    as [[e | annotations] t1] eqn:He;
    destruct (enrich_inv _ _ _ _ _ _ He)
      as [(enriched & Hr & Hs)
         | (before & failing & after & enriched & t2 & e' & Hsplit & Hs
            & Hl & Hr & Ht)];
    try discriminate Hr.
  - destruct (lookups_succeed_calls _ _ _ _ _ Hs) as (calls & -> & Hlk & Hn & _).
    assert (Hlen : (List.length calls <= List.length before)%nat) by lia.
    rewrite Hsplit, List.length_app. cbn [List.length].
    destruct Ht as [-> | [file_id ->]].
    + exists None, calls. repeat split; try assumption; try lia; try congruence.
      intros _ _. exists before, failing, after, enriched, (t ++ calls), e'.
      repeat split; try assumption; lia.
    + exists None, (calls ++ [GetFile file_id]). rewrite app_assoc.
      rewrite List.length_app. cbn [List.length].
      repeat split; try lia; try congruence.
      * apply Forall_app. split; [assumption |].
        constructor; [now exists file_id | constructor].
      * intros _ _. exists before, failing, after, enriched, (t ++ calls), e'.
        repeat split; try assumption; lia.
  - destruct (lookups_succeed_calls _ _ _ _ _ Hs) as (calls & -> & Hlk & Hn & _).
    unfold bind, lift, ret.
    destruct (first (text_messages message)) as [e | content];
      eexists _, calls; (split; [reflexivity |]);
      repeat split; try assumption; try lia; try congruence;
      intros _ Hf; now apply (lookups_exclusive _ _ _ _ _ Hs) in Hf.
Qed.
